(** * edfinity-to-ww-zipper: the paste splitter, its name sanitizer and its
      path allocator

    A shallow embedding of [edfinity-to-ww-zipper.py].  A Python [str] is a
    sequence of Unicode code points, modelled as [list N]; offsets, counters
    and loop indices are Python integers that never go below zero and are
    modelled as [nat]. *)

From Stdlib Require Import Strings.String Strings.Ascii.
From Stdlib Require Import NArith Lia DecimalString.
From Stdlib Require DecimalNat.
From stdpp Require Import base list gmap.

Local Open Scope N_scope.
Local Open Scope nat_scope.

(** ** Python strings *)

Abbreviation str := (list N).

(** A literal of the source, as the code points of its (ASCII) characters. *)
Definition py (lit : String.string) : str :=
  map Ascii.N_of_ascii (String.list_ascii_of_string lit).
Arguments py lit%_string_scope : simpl never.

(** ["\n"], ["\r"] *)
Definition nl : N := 10%N.
Definition cr : N := 13%N.
(** The double quote character *)
Definition dq : N := 34%N.

(** [s.startswith(prefix)] *)
Fixpoint startswith (s prefix : str) {struct prefix} : bool :=
  match prefix, s with
  | [], _ => true
  | _ :: _, [] => false
  | a :: prefix', c :: s' => N.eqb c a && startswith s' prefix'
  end.

(** [s.endswith(suffix)] *)
Definition endswith (s suffix : str) : bool :=
  startswith (reverse s) (reverse suffix).

(** [s[i:j]] for [0 <= i], [0 <= j]: the slice is empty when [j <= i] and
    is cut at the end of [s]. *)
Definition slice (s : str) (i j : nat) : str := take (j - i) (drop i s).

(** ** Token-based PG block extraction *)

Definition DOCUMENT : str := Eval cbv in py "DOCUMENT();".
Definition ENDDOCUMENT : str := Eval cbv in py "ENDDOCUMENT();".
Arguments DOCUMENT : simpl never.
Arguments ENDDOCUMENT : simpl never.

(** [re.finditer(r'DOCUMENT\(\);|ENDDOCUMENT\(\);', s)], as the list of
    [(m.start(), m.group())].  The scanner tries the alternatives in the
    order of the pattern at each offset, from left to right; after a match it
    resumes at the end of the match.  [skip] counts the characters of the
    last match that are still to be stepped over, [pos] is the offset of the
    head of [s] in the text. *)
Fixpoint finditer_from (skip pos : nat) (s : str) : list (nat * str) :=
  match s with
  | [] => []
  | _ :: rest =>
      match skip with
      | S k => finditer_from k (S pos) rest
      | O =>
          if startswith s DOCUMENT then
            (pos, DOCUMENT) :: finditer_from (length DOCUMENT - 1) (S pos) rest
          else if startswith s ENDDOCUMENT then
            (pos, ENDDOCUMENT) :: finditer_from (length ENDDOCUMENT - 1) (S pos) rest
          else finditer_from 0 (S pos) rest
      end
  end.

Definition finditer (s : str) : list (nat * str) := finditer_from 0 0 s.

(** The inner loop
    [while end_pos < len(s) and s[end_pos] not in '\n': end_pos += 1].
    [rest] is [s[end_pos:]]: it is empty exactly when [end_pos >= len(s)],
    and its head is [s[end_pos]]. *)
Fixpoint to_eol (rest : str) (end_pos : nat) : nat :=
  match rest with
  | [] => end_pos
  | c :: rest' => if N.eqb c nl then end_pos else to_eol rest' (S end_pos)
  end.

(** The same loop with the index as the source writes it.  [s[end_pos]]
    raises IndexError outside the string, and [fuel] bounds the iterations
    that the model runs. *)
Inductive loop_result :=
| Done (end_pos : nat)
| IndexError
| MoreFuel.

Fixpoint to_eol_indexed (fuel : nat) (s : str) (end_pos : nat) : loop_result :=
  match fuel with
  | O => MoreFuel
  | S fuel' =>
      if end_pos <? length s then
        match s !! end_pos with
        | None => IndexError
        | Some c =>
            if negb (N.eqb c nl) then to_eol_indexed fuel' s (S end_pos)
            else Done end_pos
        end
      else Done end_pos
  end.

(** Lines 106-114: the text of the block that starts at [current_start] and
    is closed by the end marker at [pos]. *)
Definition close_block (s : str) (current_start pos : nat) : str :=
  let end_pos := pos + length ENDDOCUMENT in
  let end_pos := to_eol (drop end_pos s) end_pos in
  let block := slice s current_start end_pos in
  if endswith block [nl] then block else block ++ [nl].

(** The variables of the [for] loop. *)
Record loop_state := LoopState {
  blocks : list str;
  level : nat;
  current_start : option nat
}.

Definition loop_init : loop_state :=
  {| blocks := []; level := 0; current_start := None |}.

(** One iteration of [for pos, tok in tokens] (lines 96-119). *)
Definition loop_body (s : str) (st : loop_state) (tk : nat * str) : loop_state :=
  let '(pos, tok) := tk in
  if bool_decide (tok = DOCUMENT) then
    {| blocks := blocks st;
       level := level st + 1;
       current_start := if level st =? 0 then Some pos else current_start st |}
  else if 0 <? level st then
    let level' := level st - 1 in
    match level' =? 0, current_start st with
    | true, Some start =>
        {| blocks := blocks st ++ [close_block s start pos];
           level := level';
           current_start := None |}
    | _, _ => {| blocks := blocks st; level := level'; current_start := current_start st |}
    end
  else st.

Definition run_tokens (s : str) (st : loop_state) (tokens : list (nat * str)) : loop_state :=
  fold_left (loop_body s) tokens st.

Definition extract_pg_blocks_tokenized (big_text : str) : list str :=
  let s := big_text in
  let tokens := finditer s in
  match tokens with
  | [] => []
  | _ :: _ => blocks (run_tokens s loop_init tokens)
  end.

(** ** Filename safety *)

(** The characters [str.isspace] accepts; [str.strip()] and [str.split()]
    without arguments use the same set. *)
Definition isspace (c : N) : bool :=
  ((9 <=? c) && (c <=? 13) || (28 <=? c) && (c <=? 32) ||
   (c =? 0x85) || (c =? 0xA0) || (c =? 0x1680) ||
   (0x2000 <=? c) && (c <=? 0x200A) ||
   (c =? 0x2028) || (c =? 0x2029) || (c =? 0x202F) || (c =? 0x205F) ||
   (c =? 0x3000))%N.

(** [s.lstrip(...)], [s.rstrip(...)], [s.strip(...)] for the set of
    characters that [drop] accepts. *)
Fixpoint lstrip_with (drop : N -> bool) (s : str) : str :=
  match s with
  | [] => []
  | c :: rest => if drop c then lstrip_with drop rest else s
  end.

Definition rstrip_with (drop : N -> bool) (s : str) : str :=
  reverse (lstrip_with drop (reverse s)).

Definition strip_with (drop : N -> bool) (s : str) : str :=
  rstrip_with drop (lstrip_with drop s).

(** [s.strip()] *)
Definition strip (s : str) : str := strip_with isspace s.

(** [s.strip(chars)] *)
Definition strip_chars (s chars : str) : str :=
  strip_with (fun c => bool_decide (c ∈ chars)) s.

(** [s.split()]: the maximal runs of non-whitespace characters.  [word]
    is the run read so far. *)
Fixpoint split_from (word s : str) : list str :=
  match s with
  | [] => match word with [] => [] | _ :: _ => [word] end
  | c :: rest =>
      if isspace c then
        match word with
        | [] => split_from [] rest
        | _ :: _ => word :: split_from [] rest
        end
      else split_from (word ++ [c]) rest
  end.

Definition split (s : str) : list str := split_from [] s.

(** [sep.join(words)] *)
Fixpoint join (sep : str) (words : list str) : str :=
  match words with
  | [] => []
  | [w] => w
  | w :: more => w ++ sep ++ join sep more
  end.

(** [s.replace(old, new)] for a non-empty [old]: the leftmost
    non-overlapping occurrences.  [skip] counts the characters of the last
    occurrence that are still to be stepped over. *)
Fixpoint replace_from (skip : nat) (s old new : str) : str :=
  match s with
  | [] => []
  | c :: rest =>
      match skip with
      | S k => replace_from k rest old new
      | O =>
          if startswith s old then new ++ replace_from (length old - 1) rest old new
          else c :: replace_from 0 rest old new
      end
  end.

Definition replace (s old new : str) : str := replace_from 0 s old new.

(** [string.ascii_letters], [string.digits] *)
Definition ascii_letters : str :=
  Eval cbv in py "abcdefghijklmnopqrstuvwxyzABCDEFGHIJKLMNOPQRSTUVWXYZ".
Definition digits : str := Eval cbv in py "0123456789".

Definition ALLOWED_CHARS : gset N :=
  list_to_set (ascii_letters ++ digits ++ py " _.-").

(** [x or y] on strings *)
Definition str_or (x y : str) : str :=
  match x with [] => y | _ :: _ => x end.

Definition sanitize_basename (name : str) : str :=
  let name := strip (str_or name []) in
  let name := filter (fun ch => ch ∈ ALLOWED_CHARS) name in
  let name := join (py " ") (split name) in
  let name := strip_chars (replace name (py " ") (py "-")) (py " .-") in
  str_or name (py "webwork-problems").

(** [str(k)] for an integer [k >= 0] *)
Definition str_of_int (k : nat) : str := py (NilZero.string_of_uint (Nat.to_uint k)).

(** ** Paths, the file system and the terminal

    [pathlib], [shutil] and the operating system are not part of the
    program: a platform gives a type of paths with the operations the
    program calls, and a type of file systems with the calls that read or
    change them. *)
Class Platform := {
  Path : Type;
  FS : Type;
  (** [root / name] *)
  joinpath : Path -> str -> Path;
  (** [str(p)], also [f"{p}"] *)
  path_str : Path -> str;
  (** [p.with_suffix(suffix)], [p.parent], [p.name] *)
  with_suffix : Path -> str -> Path;
  path_parent : Path -> Path;
  path_name : Path -> str;
  (** [p.exists()] *)
  path_exists : FS -> Path -> bool;
  (** [p.mkdir(parents=True, exist_ok=False)] on a path that does not exist *)
  mkdir_parents : FS -> Path -> FS;
  (** [with p.open("w", encoding="utf-8", newline="\n") as f: f.write(data)] *)
  write_text : FS -> Path -> str -> FS;
  (** [shutil.make_archive(base_name, "zip", root_dir=..., base_dir=...)] *)
  shutil_make_archive : FS -> str -> str -> str -> FS;
  (** [Path.cwd()] *)
  cwd : Path
}.

Section Program.

Context {platform : Platform}.

Local Notation "p / q" := (joinpath p q).

(** The [while True] loop of [unique_subfolder], from [k] on.  The loop has
    no bound: [fuel] bounds the number of iterations the model runs, and
    [None] stands for a loop that has not returned within them. *)
Fixpoint subfolder_loop (fuel : nat) (fs : FS) (root : Path) (base : str) (k : nat)
  : option Path :=
  match fuel with
  | O => None
  | S fuel' =>
      let q := root / (base ++ py "-" ++ str_of_int k) in
      if negb (path_exists fs q) then Some q
      else subfolder_loop fuel' fs root base (k + 1)
  end.

Definition unique_subfolder (fuel : nat) (fs : FS) (root : Path) (base : str)
  : option Path :=
  let p := root / base in
  if negb (path_exists fs p) then Some p
  else subfolder_loop fuel fs root base 1.

Fixpoint zip_path_loop (fuel : nat) (fs : FS) (root : Path) (base : str) (k : nat)
  : option Path :=
  match fuel with
  | O => None
  | S fuel' =>
      let q := root / (base ++ py "-" ++ str_of_int k ++ py ".zip") in
      if negb (path_exists fs q) then Some q
      else zip_path_loop fuel' fs root base (k + 1)
  end.

Definition unique_zip_path (fuel : nat) (fs : FS) (root : Path) (base : str)
  : option Path :=
  let z := root / (base ++ py ".zip") in
  if negb (path_exists fs z) then Some z
  else zip_path_loop fuel fs root base 1.

(** [make_archive(folder, zip_target)] *)
Definition make_archive (fs : FS) (folder zip_target : Path) : FS :=
  let base_no_ext := with_suffix zip_target [] in
  shutil_make_archive fs (path_str base_no_ext) (path_str (path_parent folder))
    (path_name folder).

(** What a run does to the terminal and to the file system, in order. *)
Inductive event :=
| Prompted (message : str)          (* [input(message)] wrote its prompt *)
| Typed (line : str)                (* [input] returned a line *)
| Interrupted                       (* [input] raised KeyboardInterrupt *)
| Printed (message : str)           (* [print(message)] *)
| MadeDir (p : Path)
| Wrote (p : Path) (data : str)
| Archived (folder zip_target : Path).

Record world := World {
  fs : FS;
  trace : list event
}.

(** How a piece of the program ends: it returns, it leaves the process
    through [sys.exit], or one of its unbounded loops has not returned
    within the fuel. *)
Inductive outcome (A : Type) :=
| Returned (a : A)
| Exited (status : nat)
| Unfinished.
Arguments Returned {A} a.
Arguments Exited {A} status.
Arguments Unfinished {A}.

Definition prog (A : Type) : Type := world -> outcome A * world.

Definition ret {A} (a : A) : prog A := fun w => (Returned a, w).

Definition bind {A B} (m : prog A) (k : A -> prog B) : prog B :=
  fun w =>
    match m w with
    | (Returned a, w') => k a w'
    | (Exited status, w') => (Exited status, w')
    | (Unfinished, w') => (Unfinished, w')
    end.

Local Notation "x <- m ;; k" := (bind m (fun x => k))
  (at level 100, m at next level, right associativity).
Local Notation "m ;; k" := (bind m (fun _ => k))
  (at level 100, right associativity).

Definition emit (e : event) : prog unit :=
  fun w => (Returned tt, {| fs := fs w; trace := trace w ++ [e] |}).

Definition print (message : str) : prog unit := emit (Printed message).

(** [input()] and [input(message)] when the user types [line] *)
Definition input_line (line : str) : prog str :=
  emit (Typed line) ;; ret line.

Definition input (message line : str) : prog str :=
  emit (Prompted message) ;; input_line line.

Definition sys_exit {A} (status : nat) : prog A := fun w => (Exited status, w).

(** A loop over the file system that may not return *)
Definition search (find : FS -> option Path) : prog Path :=
  fun w => match find (fs w) with
           | Some p => (Returned p, w)
           | None => (Unfinished, w)
           end.

Definition mkdir (p : Path) : prog unit :=
  fun w => (Returned tt,
            {| fs := mkdir_parents (fs w) p; trace := trace w ++ [MadeDir p] |}).

Definition write_file (p : Path) (data : str) : prog unit :=
  fun w => (Returned tt,
            {| fs := write_text (fs w) p data; trace := trace w ++ [Wrote p data] |}).

Definition archive (folder zip_target : Path) : prog unit :=
  fun w => (Returned tt,
            {| fs := make_archive (fs w) folder zip_target;
               trace := trace w ++ [Archived folder zip_target] |}).

(** The [try] block of [capture_lines_until_ctrl_c]: [pasted] are the lines
    the user enters before pressing Ctrl-C, the way the workflow of the
    script ends a paste.  A line cut by Ctrl-C is lost with the exception,
    so only whole lines count. *)
Fixpoint read_lines (pasted : list str) (lines : list str) : prog (list str) :=
  match pasted with
  | [] => emit Interrupted ;; ret lines
  | line :: more =>
      line <- input_line line ;;
      read_lines more (lines ++ [line ++ [nl]])
  end.

(** Line 74: the captured lines as one text, with normalized newlines. *)
Definition joined_text (lines : list str) : str :=
  replace (replace (concat lines) [cr; nl] [nl]) [cr] [nl].

Definition capture_lines_until_ctrl_c (pasted : list str) : prog str :=
  print ([nl] ++ py "Paste ALL problems now. Press Ctrl-C when finished." ++ [nl]) ;;
  lines <- read_lines pasted [] ;;
  let text := joined_text lines in
  ret text.

(** The body of [for i, block in enumerate(blocks, start=1)], from index [i]
    on. *)
Fixpoint save_blocks (base : str) (pg_subfolder : Path) (i : nat) (blocks : list str)
  : prog unit :=
  match blocks with
  | [] => ret tt
  | block :: more =>
      let fname := base ++ py "-" ++ str_of_int i ++ py ".pg" in
      let path := pg_subfolder / fname in
      write_file path block ;;
      print (py "Saved: " ++ [dq] ++ path_str path ++ [dq]) ;;
      save_blocks base pg_subfolder (i + 1) more
  end.

(** [main()]: [typed] is the answer to the first prompt, [pasted] the lines
    entered before Ctrl-C.  The calls to the operating system are taken to
    succeed: a run where one of them raises is outside the model. *)
Definition main (fuel : nat) (typed : str) (pasted : list str) : prog unit :=
  let ROOT := cwd in
  line <- input (py "Enter base filename (default: webwork-problems): ") typed ;;
  let raw := strip line in
  let base := sanitize_basename (str_or raw (py "webwork-problems")) in
  let pg_dir := py "pg-folders/" ++ base in
  pg_subfolder <- search (fun fs => unique_subfolder fuel fs ROOT pg_dir) ;;
  mkdir pg_subfolder ;;
  print ([nl; nl] ++ py "Created folder: " ++ [dq] ++ pg_dir ++ [dq] ++ [nl]) ;;
  big_text <- capture_lines_until_ctrl_c pasted ;;
  print ([nl; nl] ++ py "Ctrl-C Pressed. Processing zip-files..." ++ [nl]) ;;
  match strip big_text with
  | [] => print (py "No input detected. Nothing to do.") ;; ret tt
  | _ :: _ =>
      let blocks := extract_pg_blocks_tokenized big_text in
      match blocks with
      | [] =>
          print (py "No 'DOCUMENT(); ... ENDDOCUMENT();' blocks found. Aborting.") ;;
          sys_exit 1
      | _ :: _ =>
          save_blocks base pg_subfolder 1 blocks ;;
          zip_path <- search (fun fs => unique_zip_path fuel fs ROOT base) ;;
          archive pg_subfolder zip_path ;;
          print ([nl] ++ py "Created zip: " ++ [dq] ++ path_str zip_path ++ [dq]) ;;
          print (py "Done.")
      end
  end.

(** The exit status of the process once [main()] has ended: [sys.exit(n)]
    gives [n], falling off the end of the script gives zero. *)
Definition exit_status (o : outcome unit) : option nat :=
  match o with
  | Returned _ => Some 0
  | Exited status => Some status
  | Unfinished => None
  end.

(** The events of a run, piece by piece. *)
Definition base_name (typed : str) : str :=
  sanitize_basename (str_or (strip typed) (py "webwork-problems")).

Definition pasted_text (pasted : list str) : str :=
  joined_text (map (fun line => line ++ [nl]) pasted).

Definition events_to_capture (typed : str) (pasted : list str) (folder : Path)
  : list event :=
  [ Prompted (py "Enter base filename (default: webwork-problems): ");
    Typed typed;
    MadeDir folder;
    Printed ([nl; nl] ++ py "Created folder: " ++ [dq]
               ++ (py "pg-folders/" ++ base_name typed) ++ [dq] ++ [nl]);
    Printed ([nl] ++ py "Paste ALL problems now. Press Ctrl-C when finished." ++ [nl]) ]
  ++ map Typed pasted
  ++ [ Interrupted;
       Printed ([nl; nl] ++ py "Ctrl-C Pressed. Processing zip-files..." ++ [nl]) ].

Fixpoint events_of_save (base : str) (folder : Path) (i : nat) (blocks : list str)
  : list event :=
  match blocks with
  | [] => []
  | block :: more =>
      let path := folder / (base ++ py "-" ++ str_of_int i ++ py ".pg") in
      Wrote path block :: Printed (py "Saved: " ++ [dq] ++ path_str path ++ [dq])
        :: events_of_save base folder (i + 1) more
  end.

Fixpoint fs_of_save (base : str) (folder : Path) (i : nat) (blocks : list str) (fs : FS)
  : FS :=
  match blocks with
  | [] => fs
  | block :: more =>
      let path := folder / (base ++ py "-" ++ str_of_int i ++ py ".pg") in
      fs_of_save base folder (i + 1) more (write_text fs path block)
  end.

End Program.

Arguments Returned {A} a.
Arguments Exited {A} status.
Arguments Unfinished {A}.

(** The text that [main] captures decides how the run ends. *)
Inductive verdict :=
| NoInput
| NoBlocks
| Blocks (blocks : list str).

Definition verdict_of (big_text : str) : verdict :=
  match strip big_text with
  | [] => NoInput
  | _ :: _ =>
      match extract_pg_blocks_tokenized big_text with
      | [] => NoBlocks
      | blocks => Blocks blocks
      end
  end.

(** A platform to run the program on: paths are strings, a file system is
    the list of the paths that exist. *)
Definition sample_platform : Platform :=
  {| Path := str;
     FS := list str;
     joinpath := fun root name => root ++ py "/" ++ name;
     path_str := fun p => p;
     with_suffix := fun p suffix => p ++ suffix;
     path_parent := fun p => p;
     path_name := fun p => p;
     path_exists := fun fs p => bool_decide (p ∈ fs);
     mkdir_parents := fun fs p => p :: fs;
     write_text := fun fs p _ => p :: fs;
     shutil_make_archive := fun fs base_name _ _ => (base_name ++ py ".zip") :: fs;
     cwd := py "." |}.

(** ** Texts with markers at known places

    The claims speak of texts built from markers and of the marker-free
    text between them. *)

(** [sub in s] *)
Fixpoint contains (s sub : str) : bool :=
  startswith s sub ||
  match s with
  | [] => false
  | _ :: rest => contains rest sub
  end.

Inductive marker := Begin | End.

Definition literal (m : marker) : str :=
  match m with
  | Begin => DOCUMENT
  | End => ENDDOCUMENT
  end.

(** A text without markers.  An end marker contains a begin marker, so a
    text without begin markers has no end marker either. *)
Definition plain (filler : str) : bool := negb (contains filler DOCUMENT).

(** The text before a marker holds no marker, and the end of the text
    before a begin marker does not turn it into an end marker. *)
Definition filler_ok (filler : str) (m : marker) : bool :=
  plain filler &&
  match m with
  | Begin => negb (contains (filler ++ DOCUMENT) ENDDOCUMENT)
  | End => true
  end.

(** The rest of the line: [s] up to its first newline. *)
Fixpoint rest_of_line (s : str) : str :=
  match s with
  | [] => []
  | c :: rest => if N.eqb c nl then [] else c :: rest_of_line rest
  end.

(** [s.startswith(sub, p)]: [sub] occurs in [s] at offset [p]. *)
Definition occurs (s sub : str) (p : nat) : bool := startswith (drop p s) sub.

(** The number of tokens of [tokens] that are the marker [tok]. *)
Definition count_tokens (tok : str) (tokens : list (nat * str)) : nat :=
  length (filter (fun tk => tk.2 = tok) tokens).

(** The tokens a completed block has consumed: [inside], between the
    tokens [before] and [after], from the begin marker at [start] that
    opened the block to the end marker at [pos] that closed it. *)
Definition block_tokens (tokens before inside after : list (nat * str)) (start pos : nat) : Prop :=
  tokens = before ++ inside ++ after /\
  head inside = Some (start, DOCUMENT) /\
  last inside = Some (pos, ENDDOCUMENT).

(** A paste of well-formed documents, one after the other: [gap], then for
    each [(body, gap')] of [docs] a begin marker, [body], an end marker and
    [gap']. *)
Fixpoint documents (gap : str) (docs : list (str * str)) : str :=
  match docs with
  | [] => gap
  | (body, gap') :: more =>
      gap ++ DOCUMENT ++ body ++ ENDDOCUMENT ++ documents gap' more
  end.

(** The markers of the documents are the only ones of the text. *)
Fixpoint only_these_markers (gap : str) (docs : list (str * str)) : bool :=
  match docs with
  | [] => plain gap
  | (body, gap') :: more =>
      filler_ok gap Begin && filler_ok body End && only_these_markers gap' more
  end.

(** The block of each document: the document from its begin marker to the
    end of the line of its end marker, and a newline. *)
Fixpoint document_blocks (docs : list (str * str)) : list str :=
  match docs with
  | [] => []
  | (body, gap') :: more =>
      (DOCUMENT ++ body ++ ENDDOCUMENT ++ rest_of_line (documents gap' more) ++ [nl])
        :: document_blocks more
  end.

(** The loop when the text [pre] is put before the scanned text: offsets
    grow by the length of [pre]. *)
Definition shift_token (d : nat) (tk : nat * str) : nat * str := (d + tk.1, tk.2).

Definition shift_state (d : nat) (st : loop_state) : loop_state :=
  {| blocks := blocks st;
     level := level st;
     current_start := (fun start => d + start) <$> current_start st |}.

(** What holds of the loop variables after the tokens [consumed]. *)
Record loop_invariant (s : str) (consumed : list (nat * str)) (st : loop_state) : Prop := {
  inv_blocks :
    forall block, block ∈ blocks st ->
      exists before inside after start pos,
        block_tokens consumed before inside after start pos /\
        count_tokens DOCUMENT inside = count_tokens ENDDOCUMENT inside /\
        block = close_block s start pos;
  inv_outside : level st = 0 -> current_start st = None;
  inv_inside :
    0 < level st ->
      exists before pending start,
        consumed = before ++ pending /\
        head pending = Some (start, DOCUMENT) /\
        current_start st = Some start /\
        level (run_tokens s loop_init before) = 0 /\
        blocks (run_tokens s loop_init before) = blocks st /\
        count_tokens DOCUMENT pending = count_tokens ENDDOCUMENT pending + level st
}.

(** ** The rest of the program: what its runs leave behind *)

(** Line 74 as one pass over the text: a carriage return becomes a newline,
    and takes the newline that follows it along. *)
Fixpoint normalize_newlines (s : str) : str :=
  match s with
  | [] => []
  | c :: rest =>
      if N.eqb c cr then
        match rest with
        | d :: rest' =>
            if N.eqb d nl then nl :: normalize_newlines rest'
            else nl :: normalize_newlines rest
        | [] => [nl]
        end
      else c :: normalize_newlines rest
  end.

(** A name that the sanitizer has nothing to do on. *)
Definition safe_name (name : str) : Prop :=
  name <> [] /\
  Forall (fun c => c ∈ ascii_letters ++ digits ++ py "_.-") name /\
  (forall c, head name = Some c \/ last name = Some c -> c ∉ py " .-").

Section Effects.

Context {platform : Platform}.

(** The events of a run that change the file system. *)
Definition changes_fs (e : event) : bool :=
  match e with
  | MadeDir _ | Wrote _ _ | Archived _ _ => true
  | Prompted _ | Typed _ | Interrupted | Printed _ => false
  end.

Definition fs_events (events : list event) : list event :=
  List.filter changes_fs events.

(** The file of the block at (0-based) position [i] of the result. *)
Definition block_file (base : str) (folder : Path) (i : nat) : Path :=
  joinpath folder (base ++ py "-" ++ str_of_int (i + 1) ++ py ".pg").

End Effects.

(** * Properties *)

(** ** Strings *)

Lemma startswith_spec (s prefix : str) :
  startswith s prefix = true <-> exists rest, s = prefix ++ rest.
Proof.
  revert s. induction prefix as [|a prefix IH]; intros s; simpl.
  - split; [intros _; by exists s | reflexivity].
  - destruct s as [|c s].
    + split; [done | intros [rest H]; discriminate].
    + rewrite andb_true_iff, IH, N.eqb_eq. split.
      * intros [-> [rest ->]]. eauto.
      * intros [rest H]. injection H as -> ->. eauto.
Qed.

Lemma startswith_app (prefix rest : str) : startswith (prefix ++ rest) prefix = true.
Proof. apply startswith_spec. eauto. Qed.

(** ** The scanner *)

Lemma finditer_from_skip (x rest : str) (pos : nat) :
  finditer_from (length x) pos (x ++ rest) = finditer_from 0 (pos + length x) rest.
Proof.
  revert pos. induction x as [|c x IH]; intros pos; simpl.
  - by rewrite Nat.add_0_r.
  - rewrite IH. f_equal. lia.
Qed.

Lemma finditer_DOCUMENT (pos : nat) (rest : str) :
  finditer_from 0 pos (DOCUMENT ++ rest)
  = (pos, DOCUMENT) :: finditer_from 0 (pos + length DOCUMENT) rest.
Proof.
  change (DOCUMENT ++ rest) with (68%N :: tail DOCUMENT ++ rest).
  change (finditer_from 0 pos (68%N :: tail DOCUMENT ++ rest))
    with ((pos, DOCUMENT) :: finditer_from (length (tail DOCUMENT)) (S pos) (tail DOCUMENT ++ rest)).
  rewrite finditer_from_skip. do 2 f_equal. simpl. lia.
Qed.

Lemma finditer_ENDDOCUMENT (pos : nat) (rest : str) :
  finditer_from 0 pos (ENDDOCUMENT ++ rest)
  = (pos, ENDDOCUMENT) :: finditer_from 0 (pos + length ENDDOCUMENT) rest.
Proof.
  change (ENDDOCUMENT ++ rest) with (69%N :: tail ENDDOCUMENT ++ rest).
  change (finditer_from 0 pos (69%N :: tail ENDDOCUMENT ++ rest))
    with ((pos, ENDDOCUMENT)
            :: finditer_from (length (tail ENDDOCUMENT)) (S pos) (tail ENDDOCUMENT ++ rest)).
  rewrite finditer_from_skip. do 2 f_equal. simpl. lia.
Qed.

Lemma finditer_other (pos : nat) (c : N) (rest : str) :
  startswith (c :: rest) DOCUMENT = false ->
  startswith (c :: rest) ENDDOCUMENT = false ->
  finditer_from 0 pos (c :: rest) = finditer_from 0 (S pos) rest.
Proof.
  intros H1 H2. unfold finditer_from at 1. fold finditer_from.
  by rewrite H1, H2.
Qed.

Lemma plain_tail (c : N) (x : str) : plain (c :: x) = true -> plain x = true.
Proof.
  unfold plain. simpl. rewrite !negb_true_iff, orb_false_iff. tauto.
Qed.

Lemma filler_ok_tail (c : N) (x : str) (m : marker) :
  filler_ok (c :: x) m = true -> filler_ok x m = true.
Proof.
  unfold filler_ok. rewrite !andb_true_iff. intros [Hp Hm]. split.
  - by apply plain_tail in Hp.
  - destruct m; [|done]. revert Hm. simpl.
    rewrite !negb_true_iff, orb_false_iff. tauto.
Qed.

(** No match starts inside the text before a marker. *)
Lemma no_match_in_filler (c : N) (x : str) (m : marker) (rest : str) :
  filler_ok (c :: x) m = true ->
  startswith ((c :: x) ++ literal m ++ rest) DOCUMENT = false /\
  startswith ((c :: x) ++ literal m ++ rest) ENDDOCUMENT = false.
Proof.
  unfold filler_ok. rewrite andb_true_iff. intros [Hplain Hok].
  do 13 (destruct x as [|? x];
    [ split; apply not_true_is_false; intros [k H]%startswith_spec;
      destruct m; unfold literal, DOCUMENT, ENDDOCUMENT in H; simpl in H; simplify_eq;
      first [ by vm_compute in Hplain | by vm_compute in Hok ] | ]).
  split; apply not_true_is_false; intros [k H]%startswith_spec;
    destruct m; unfold literal, DOCUMENT, ENDDOCUMENT in H; simpl in H; simplify_eq; by vm_compute in Hplain.
Qed.

Lemma finditer_filler (x : str) (m : marker) (rest : str) (pos : nat) :
  filler_ok x m = true ->
  finditer_from 0 pos (x ++ literal m ++ rest)
  = (pos + length x, literal m)
      :: finditer_from 0 (pos + length x + length (literal m)) rest.
Proof.
  revert pos. induction x as [|c x IH]; intros pos Hok.
  - simpl app. rewrite !Nat.add_0_r.
    destruct m; [apply finditer_DOCUMENT | apply finditer_ENDDOCUMENT].
  - destruct (no_match_in_filler c x m rest Hok) as [H1 H2].
    simpl app in *. rewrite finditer_other by done.
    rewrite IH by (by apply filler_ok_tail in Hok).
    simpl length. f_equal; [f_equal; lia | f_equal; lia].
Qed.

Lemma finditer_to_DOCUMENT (x rest : str) (pos : nat) :
  filler_ok x Begin = true ->
  finditer_from 0 pos (x ++ DOCUMENT ++ rest)
  = (pos + length x, DOCUMENT) :: finditer_from 0 (pos + length x + 11) rest.
Proof. apply (finditer_filler x Begin). Qed.

Lemma finditer_to_ENDDOCUMENT (x rest : str) (pos : nat) :
  filler_ok x End = true ->
  finditer_from 0 pos (x ++ ENDDOCUMENT ++ rest)
  = (pos + length x, ENDDOCUMENT) :: finditer_from 0 (pos + length x + 14) rest.
Proof. apply (finditer_filler x End). Qed.

Lemma ENDDOCUMENT_contains_DOCUMENT (s : str) :
  startswith s ENDDOCUMENT = true -> contains s DOCUMENT = true.
Proof. intros [k ->]%startswith_spec. reflexivity. Qed.

Lemma finditer_plain (x : str) (pos : nat) :
  plain x = true -> finditer_from 0 pos x = [].
Proof.
  revert pos. induction x as [|c x IH]; intros pos Hp; [done|].
  rewrite finditer_other.
  - apply IH. by apply plain_tail in Hp.
  - unfold plain in Hp. simpl in Hp.
    by apply negb_true_iff, orb_false_iff in Hp as [? _].
  - apply not_true_is_false. intros H%ENDDOCUMENT_contains_DOCUMENT.
    unfold plain in Hp. by rewrite H in Hp.
Qed.

(** ** Closing a block *)

Lemma to_eol_rest_of_line (rest : str) (end_pos : nat) :
  to_eol rest end_pos = end_pos + length (rest_of_line rest).
Proof.
  revert end_pos. induction rest as [|c rest IH]; intros end_pos; simpl.
  - lia.
  - destruct (N.eqb c nl); simpl; [lia|]. rewrite IH. lia.
Qed.

Lemma rest_of_line_prefix (s : str) : exists after, s = rest_of_line s ++ after.
Proof.
  induction s as [|c s [after IH]]; simpl.
  - by exists (@nil N).
  - destruct (N.eqb c nl).
    + by eexists.
    + exists after. simpl. by f_equal.
Qed.

Lemma rest_of_line_no_newline (s : str) : Forall (fun c => c <> nl) (rest_of_line s).
Proof.
  induction s as [|c s IH]; simpl; [constructor|].
  destruct (N.eqb_spec c nl); by constructor.
Qed.

Lemma endswith_newline_app (s : str) (c : N) :
  endswith (s ++ [c]) [nl] = N.eqb c nl.
Proof.
  unfold endswith. rewrite reverse_app. simpl. by rewrite andb_true_r.
Qed.

Lemma endswith_no_newline (x line : str) :
  Forall (fun c => c <> nl) line -> endswith ((x ++ [59%N]) ++ line) [nl] = false.
Proof.
  induction line as [|c line _] using rev_ind; intros Hline.
  - by rewrite app_nil_r, endswith_newline_app.
  - rewrite (assoc_L app), endswith_newline_app.
    apply Forall_app in Hline as [_ Hc]. rewrite Forall_singleton in Hc.
    by apply N.eqb_neq.
Qed.

(** The loop over the index never raises, ends within [len(s) - end_pos]
    iterations, and gives the offset that [to_eol] gives. *)
Lemma to_eol_indexed_spec (fuel : nat) (s : str) (end_pos : nat) :
  length s - end_pos < fuel ->
  to_eol_indexed fuel s end_pos = Done (to_eol (drop end_pos s) end_pos).
Proof.
  revert end_pos. induction fuel as [|fuel IH]; intros end_pos Hfuel; [lia|].
  cbn [to_eol_indexed]. destruct (Nat.ltb_spec end_pos (length s)) as [Hlt | Hge].
  - destruct (lookup_lt_is_Some_2 s end_pos Hlt) as [c Hc].
    rewrite Hc, (drop_S _ _ _ Hc). cbn [to_eol].
    destruct (N.eqb c nl); cbn [negb]; [done|]. apply IH. lia.
  - by rewrite drop_ge.
Qed.

(** A block that ends with an end marker and the rest of its line gets
    the newline appended. *)
Lemma close_block_text (pre body tail : str) :
  close_block (pre ++ body ++ ENDDOCUMENT ++ tail) (length pre) (length pre + length body)
  = body ++ ENDDOCUMENT ++ rest_of_line tail ++ [nl].
Proof.
  unfold close_block, slice.
  replace (drop (length pre + length body + length ENDDOCUMENT)
             (pre ++ body ++ ENDDOCUMENT ++ tail)) with tail.
  2:{ rewrite !(assoc_L app), drop_app_length'; [done|].
      rewrite !length_app. lia. }
  rewrite to_eol_rest_of_line, drop_app_length.
  destruct (rest_of_line_prefix tail) as [after Hafter].
  set (line := rest_of_line tail) in *.
  replace (take _ _) with (body ++ ENDDOCUMENT ++ line).
  2:{ assert (body ++ ENDDOCUMENT ++ tail = (body ++ ENDDOCUMENT ++ line) ++ after) as ->.
      { rewrite <- !(assoc_L app). do 2 f_equal. exact Hafter. }
      rewrite take_app_length'; [done|]. rewrite !length_app. lia. }
  assert (body ++ ENDDOCUMENT ++ line
          = ((body ++ removelast ENDDOCUMENT) ++ [59%N]) ++ line) as E.
  { rewrite <- !(assoc_L app). reflexivity. }
  rewrite E at 1.
  rewrite endswith_no_newline by apply rest_of_line_no_newline.
  by rewrite <- !(assoc_L app).
Qed.

(** ** The loop *)

Lemma loop_body_begin (s : str) (st : loop_state) (pos : nat) :
  loop_body s st (pos, DOCUMENT)
  = {| blocks := blocks st;
       level := level st + 1;
       current_start := if level st =? 0 then Some pos else current_start st |}.
Proof. reflexivity. Qed.

Lemma loop_body_end (s : str) (st : loop_state) (pos : nat) :
  loop_body s st (pos, ENDDOCUMENT)
  = if 0 <? level st then
      match level st - 1 =? 0, current_start st with
      | true, Some start =>
          {| blocks := blocks st ++ [close_block s start pos];
             level := level st - 1;
             current_start := None |}
      | _, _ =>
          {| blocks := blocks st; level := level st - 1; current_start := current_start st |}
      end
    else st.
Proof. reflexivity. Qed.

Lemma extract_run (s : str) :
  extract_pg_blocks_tokenized s = blocks (run_tokens s loop_init (finditer s)).
Proof.
  unfold extract_pg_blocks_tokenized. by destruct (finditer s).
Qed.

(** The loop over a paste of well-formed documents that starts at the end of
    [pre], entered outside a block. *)
Lemma run_documents (pre gap : str) (docs : list (str * str)) (acc : list str) :
  only_these_markers gap docs = true ->
  run_tokens (pre ++ documents gap docs)
    {| blocks := acc; level := 0; current_start := None |}
    (finditer_from 0 (length pre) (documents gap docs))
  = {| blocks := acc ++ document_blocks docs; level := 0; current_start := None |}.
Proof.
  revert pre gap acc. induction docs as [|[body gap'] more IH]; intros pre gap acc Hok.
  - simpl in *. rewrite finditer_plain by done. by rewrite app_nil_r.
  - simpl in Hok. apply andb_true_iff in Hok as [[Hgap Hbody]%andb_true_iff Hmore].
    cbn [documents].
    rewrite finditer_to_DOCUMENT, finditer_to_ENDDOCUMENT by done.
    unfold run_tokens. cbn [fold_left].
    rewrite loop_body_begin, loop_body_end. cbn [level current_start blocks Nat.add Nat.sub Nat.eqb Nat.ltb Nat.leb].
    replace (close_block _ _ _)
      with (close_block ((pre ++ gap) ++ (DOCUMENT ++ body) ++ ENDDOCUMENT ++ documents gap' more)
              (length (pre ++ gap)) (length (pre ++ gap) + length (DOCUMENT ++ body))).
    2:{ rewrite !length_app, <- !(assoc_L app). change (length DOCUMENT) with 11.
        f_equal. lia. }
    rewrite close_block_text.
    specialize (IH (pre ++ gap ++ DOCUMENT ++ body ++ ENDDOCUMENT) gap' (acc ++
      [(DOCUMENT ++ body) ++ ENDDOCUMENT ++ rest_of_line (documents gap' more) ++ [nl]]) Hmore).
    unfold run_tokens in IH.
    rewrite <- !(assoc_L app) in IH.
    replace (length (pre ++ gap ++ DOCUMENT ++ body ++ ENDDOCUMENT))
      with (length pre + length gap + 11 + length body + 14) in IH
      by (rewrite !length_app; change (length DOCUMENT) with 11;
          change (length ENDDOCUMENT) with 14; lia).
    rewrite <- !(assoc_L app). rewrite IH. reflexivity.
Qed.

(** C1: a paste of N well-formed documents in sequence, with no marker other
    than theirs, gives exactly N blocks, in the order of the documents: the
    block of each document runs from its begin marker to the end of the line
    of its end marker. *)
Theorem extract_documents (gap : str) (docs : list (str * str)) :
  only_these_markers gap docs = true ->
  extract_pg_blocks_tokenized (documents gap docs) = document_blocks docs /\
  length (extract_pg_blocks_tokenized (documents gap docs)) = length docs.
Proof.
  intros Hok.
  assert (extract_pg_blocks_tokenized (documents gap docs) = document_blocks docs) as ->.
  { rewrite extract_run. unfold finditer, loop_init.
    pose proof (run_documents [] gap docs [] Hok) as H.
    cbn [app length] in H. by rewrite H. }
  split; [done|]. induction docs as [|[body gap'] more IH] in gap, Hok |- *; [done|].
  simpl in *. f_equal. apply (IH gap'). by apply andb_true_iff in Hok as [_ ?].
Qed.

Lemma close_block_at (s pre body tail : str) (start pos : nat) :
  s = pre ++ body ++ ENDDOCUMENT ++ tail ->
  start = length pre ->
  pos = length pre + length body ->
  close_block s start pos = body ++ ENDDOCUMENT ++ rest_of_line tail ++ [nl].
Proof. intros -> -> ->. apply close_block_text. Qed.

Ltac marker_lengths :=
  rewrite ?length_app; change (length DOCUMENT) with 11;
  change (length ENDDOCUMENT) with 14; lia.

(** C3: the paste of the end-to-end example gives two blocks; the first
    keeps the comment that follows its end marker on the same line and stops
    at the newline, the second is the second document. *)
Theorem extract_example :
  extract_pg_blocks_tokenized
    (py "DOCUMENT();" ++ [nl] ++ py "foo" ++ [nl] ++ py "ENDDOCUMENT(); % comment" ++ [nl] ++
     py "DOCUMENT();" ++ [nl] ++ py "bar" ++ [nl] ++ py "ENDDOCUMENT();" ++ [nl])
  = [ py "DOCUMENT();" ++ [nl] ++ py "foo" ++ [nl] ++ py "ENDDOCUMENT(); % comment" ++ [nl];
      py "DOCUMENT();" ++ [nl] ++ py "bar" ++ [nl] ++ py "ENDDOCUMENT();" ++ [nl] ].
Proof. vm_compute. reflexivity. Qed.

(** C2, as stated, fails: two begin markers and one end marker give no
    block. *)
Lemma extract_two_begins_one_end_counterexample :
  extract_pg_blocks_tokenized (DOCUMENT ++ DOCUMENT ++ ENDDOCUMENT) = [] /\
  extract_pg_blocks_tokenized (DOCUMENT ++ DOCUMENT ++ ENDDOCUMENT)
    <> [DOCUMENT ++ DOCUMENT ++ ENDDOCUMENT ++ [nl]].
Proof. split; [|intros H; revert H]; vm_compute; done. Qed.

(** C2, amended: after two begin markers the first end marker lowers the
    counter from 2 to 1 and closes nothing, so the text gives no block; when
    a second end marker follows, the text gives exactly one block, from the
    first begin marker to the end of the line of the second end marker. *)
Theorem extract_two_begins (gap body1 body2 body3 tail : str) :
  filler_ok gap Begin = true ->
  filler_ok body1 Begin = true ->
  filler_ok body2 End = true ->
  filler_ok body3 End = true ->
  plain tail = true ->
  extract_pg_blocks_tokenized
    (gap ++ DOCUMENT ++ body1 ++ DOCUMENT ++ body2 ++ ENDDOCUMENT ++ tail) = [] /\
  extract_pg_blocks_tokenized
    (gap ++ DOCUMENT ++ body1 ++ DOCUMENT ++ body2 ++ ENDDOCUMENT ++ body3 ++ ENDDOCUMENT ++ tail)
  = [DOCUMENT ++ body1 ++ DOCUMENT ++ body2 ++ ENDDOCUMENT ++ body3 ++ ENDDOCUMENT
       ++ rest_of_line tail ++ [nl]].
Proof.
  intros Hgap H1 H2 H3 Htail. split.
  - rewrite extract_run. unfold finditer.
    rewrite !finditer_to_DOCUMENT, finditer_to_ENDDOCUMENT, finditer_plain by done.
    reflexivity.
  - rewrite extract_run. unfold finditer.
    rewrite !finditer_to_DOCUMENT, !finditer_to_ENDDOCUMENT, finditer_plain by done.
    unfold run_tokens, loop_init. cbn [fold_left].
    rewrite !loop_body_begin, !loop_body_end.
    cbn [level current_start blocks Nat.add Nat.sub Nat.eqb Nat.ltb Nat.leb app].
    f_equal.
    rewrite (close_block_at _ gap
               (DOCUMENT ++ body1 ++ DOCUMENT ++ body2 ++ ENDDOCUMENT ++ body3) tail).
    + by rewrite <- !(assoc_L app).
    + by rewrite <- !(assoc_L app).
    + lia.
    + marker_lengths.
Qed.

Lemma extract_documents_witness :
  let gap := py "intro" ++ [nl] in
  let docs := [ ([nl] ++ py "foo" ++ [nl], py " % one" ++ [nl]); (py "bar", []) ] in
  only_these_markers gap docs = true /\
  extract_pg_blocks_tokenized (documents gap docs) = document_blocks docs /\
  length (extract_pg_blocks_tokenized (documents gap docs)) = 2.
Proof.
  intros gap docs. split; [reflexivity|].
  apply (extract_documents gap docs). reflexivity.
Defined.

Lemma extract_two_begins_witness :
  extract_pg_blocks_tokenized
    (py "x" ++ DOCUMENT ++ py "a" ++ DOCUMENT ++ py "b" ++ ENDDOCUMENT ++ py "t") = [] /\
  extract_pg_blocks_tokenized
    (py "x" ++ DOCUMENT ++ py "a" ++ DOCUMENT ++ py "b" ++ ENDDOCUMENT ++ py "c" ++ ENDDOCUMENT
       ++ py "t")
  = [DOCUMENT ++ py "a" ++ DOCUMENT ++ py "b" ++ ENDDOCUMENT ++ py "c" ++ ENDDOCUMENT
       ++ rest_of_line (py "t") ++ [nl]].
Proof.
  apply (extract_two_begins (py "x") (py "a") (py "b") (py "c") (py "t")); reflexivity.
Defined.

(** ** The tokens are the markers of the text *)

(** The cases of the scanner at the start of a match attempt. *)
Lemma finditer_cases (P : nat -> str -> list (nat * str) -> Prop) :
  (forall pos, P pos [] []) ->
  (forall pos rest,
      P (pos + 11) rest (finditer_from 0 (pos + 11) rest) ->
      P pos (DOCUMENT ++ rest) ((pos, DOCUMENT) :: finditer_from 0 (pos + 11) rest)) ->
  (forall pos rest,
      P (pos + 14) rest (finditer_from 0 (pos + 14) rest) ->
      P pos (ENDDOCUMENT ++ rest) ((pos, ENDDOCUMENT) :: finditer_from 0 (pos + 14) rest)) ->
  (forall pos c rest,
      startswith (c :: rest) DOCUMENT = false ->
      startswith (c :: rest) ENDDOCUMENT = false ->
      P (S pos) rest (finditer_from 0 (S pos) rest) ->
      P pos (c :: rest) (finditer_from 0 (S pos) rest)) ->
  forall pos s, P pos s (finditer_from 0 pos s).
Proof.
  intros Hnil Hdoc Hend Hother pos s.
  remember (length s) as n eqn:Hn. revert pos s Hn.
  induction n as [n IH] using lt_wf_ind. intros pos s ->.
  destruct (startswith s DOCUMENT) eqn:H1.
  { apply startswith_spec in H1 as [rest ->]. rewrite finditer_DOCUMENT.
    apply Hdoc. eapply IH; [|done]. rewrite length_app. simpl. lia. }
  destruct (startswith s ENDDOCUMENT) eqn:H2.
  { apply startswith_spec in H2 as [rest ->]. rewrite finditer_ENDDOCUMENT.
    apply Hend. eapply IH; [|done]. rewrite length_app. simpl. lia. }
  destruct s as [|c rest]; [apply Hnil|].
  rewrite finditer_other by done. apply Hother; [done..|].
  eapply IH; [|done]. simpl. lia.
Qed.

Lemma occurs_app (x rest sub : str) (p : nat) :
  occurs (x ++ rest) sub (length x + p) = occurs rest sub p.
Proof. unfold occurs. by rewrite drop_app_add. Qed.

Lemma occurs_in_DOCUMENT (rest sub : str) (p : nat) :
  sub = DOCUMENT \/ sub = ENDDOCUMENT ->
  occurs (DOCUMENT ++ rest) sub p = true ->
  (p = 0 /\ sub = DOCUMENT) \/ (11 <= p /\ occurs rest sub (p - 11) = true).
Proof.
  intros Hsub H.
  do 11 (destruct p as [|p];
    [destruct Hsub as [-> | ->]; first [by left | by vm_compute in H] |]).
  right. split; [lia|]. revert H. cbn [Nat.sub]. rewrite Nat.sub_0_r.
  by rewrite <- (occurs_app DOCUMENT rest sub p).
Qed.

Lemma occurs_in_ENDDOCUMENT (rest sub : str) (p : nat) :
  sub = DOCUMENT \/ sub = ENDDOCUMENT ->
  occurs (ENDDOCUMENT ++ rest) sub p = true ->
  (p = 0 /\ sub = ENDDOCUMENT) \/ (p = 3 /\ sub = DOCUMENT) \/
  (14 <= p /\ occurs rest sub (p - 14) = true).
Proof.
  intros Hsub H.
  do 14 (destruct p as [|p];
    [destruct Hsub as [-> | ->]; first [by left | by right; left | by vm_compute in H] |]).
  right. right. split; [lia|]. revert H. cbn [Nat.sub]. rewrite Nat.sub_0_r.
  by rewrite <- (occurs_app ENDDOCUMENT rest sub p).
Qed.

Lemma finditer_lower_bound (pos : nat) (s : str) (q : nat) (tok : str) :
  (q, tok) ∈ finditer_from 0 pos s -> pos <= q.
Proof.
  revert q tok. pattern pos, s, (finditer_from 0 pos s). apply finditer_cases; clear.
  - intros pos q tok H. by apply elem_of_nil in H.
  - intros pos rest IH q tok [H|H]%elem_of_cons; [by simplify_eq|].
    apply IH in H. lia.
  - intros pos rest IH q tok [H|H]%elem_of_cons; [by simplify_eq|].
    apply IH in H. lia.
  - intros pos c rest _ _ IH q tok H. apply IH in H. lia.
Qed.

(** Every token is a marker, at an offset where that marker occurs. *)
Lemma finditer_sound (pos : nat) (s : str) (q : nat) (tok : str) :
  (q, tok) ∈ finditer_from 0 pos s ->
  (tok = DOCUMENT \/ tok = ENDDOCUMENT) /\ pos <= q /\ occurs s tok (q - pos) = true.
Proof.
  revert q tok. pattern pos, s, (finditer_from 0 pos s). apply finditer_cases; clear.
  - intros pos q tok H. by apply elem_of_nil in H.
  - intros pos rest IH q tok [H|H]%elem_of_cons.
    + simplify_eq. rewrite Nat.sub_diag. split; [by left|]. split; [lia|].
      apply startswith_app.
    + apply IH in H as (Htok & Hq & Hocc). split; [done|]. split; [lia|].
      replace (q - pos) with (length DOCUMENT + (q - (pos + 11)))
        by (change (length DOCUMENT) with 11; lia).
      by rewrite occurs_app.
  - intros pos rest IH q tok [H|H]%elem_of_cons.
    + simplify_eq. rewrite Nat.sub_diag. split; [by right|]. split; [lia|].
      apply startswith_app.
    + apply IH in H as (Htok & Hq & Hocc). split; [done|]. split; [lia|].
      replace (q - pos) with (length ENDDOCUMENT + (q - (pos + 14)))
        by (change (length ENDDOCUMENT) with 14; lia).
      by rewrite occurs_app.
  - intros pos c rest _ _ IH q tok H.
    apply IH in H as (Htok & Hq & Hocc). split; [done|]. split; [lia|].
    replace (q - pos) with (S (q - S pos)) by lia. done.
Qed.

Lemma occurs_nil (sub : str) (p : nat) :
  sub = DOCUMENT \/ sub = ENDDOCUMENT -> occurs [] sub p = false.
Proof. unfold occurs. rewrite drop_nil. by intros [-> | ->]. Qed.

(** Every end marker of the text is a token, and every begin marker is a
    token unless it is the tail of an end marker. *)
Lemma finditer_complete (pos : nat) (s sub : str) (p : nat) :
  sub = DOCUMENT \/ sub = ENDDOCUMENT ->
  occurs s sub p = true ->
  (pos + p, sub) ∈ finditer_from 0 pos s \/
  (sub = DOCUMENT /\ 3 <= p /\ occurs s ENDDOCUMENT (p - 3) = true).
Proof.
  intros Hsub. revert p.
  pattern pos, s, (finditer_from 0 pos s). apply finditer_cases; clear pos s.
  - intros pos p H. by rewrite occurs_nil in H.
  - intros pos rest IH p H.
    apply occurs_in_DOCUMENT in H as [[-> ->] | [Hp H]]; [| |done].
    { left. rewrite Nat.add_0_r. apply list_elem_of_here. }
    apply IH in H as [H | (-> & Hp3 & H)].
    + left. apply list_elem_of_further.
      by replace (pos + p) with (pos + 11 + (p - 11)) by lia.
    + right. split; [done|]. split; [lia|].
      replace (p - 3) with (length DOCUMENT + (p - 11 - 3))
        by (change (length DOCUMENT) with 11; lia).
      by rewrite occurs_app.
  - intros pos rest IH p H.
    apply occurs_in_ENDDOCUMENT in H as [[-> ->] | [[-> ->] | [Hp H]]]; [| | |done].
    { left. rewrite Nat.add_0_r. apply list_elem_of_here. }
    { right. split; [done|]. split; [lia|]. apply startswith_app. }
    apply IH in H as [H | (-> & Hp3 & H)].
    + left. apply list_elem_of_further.
      by replace (pos + p) with (pos + 14 + (p - 14)) by lia.
    + right. split; [done|]. split; [lia|].
      replace (p - 3) with (length ENDDOCUMENT + (p - 14 - 3))
        by (change (length ENDDOCUMENT) with 14; lia).
      by rewrite occurs_app.
  - intros pos c rest H1 H2 IH [|p] H.
    { change (startswith (c :: rest) sub = true) in H.
      destruct Hsub as [-> | ->]; congruence. }
    change (occurs rest sub p = true) in H.
    apply IH in H as [H | (-> & Hp3 & H)].
    + left. by replace (pos + S p) with (S pos + p) by lia.
    + right. split; [done|]. split; [lia|].
      by replace (S p - 3) with (S (p - 3)) by lia.
Qed.

(** The begin marker inside an end marker is not a token. *)
Lemma finditer_not_embedded (pos : nat) (s : str) (p : nat) :
  occurs s ENDDOCUMENT p = true ->
  (pos + p + 3, DOCUMENT) ∉ finditer_from 0 pos s.
Proof.
  revert p. pattern pos, s, (finditer_from 0 pos s). apply finditer_cases; clear pos s.
  - intros pos p H. rewrite occurs_nil in H; [done | by right].
  - intros pos rest IH p H.
    apply occurs_in_DOCUMENT in H as [[_ [=]] | [Hp H]]; [|by right].
    apply IH in H. intros [Heq|Hin]%elem_of_cons.
    + simplify_eq. lia.
    + by replace (pos + p + 3) with (pos + 11 + (p - 11) + 3) in Hin by lia.
  - intros pos rest IH p H.
    apply occurs_in_ENDDOCUMENT in H as [[-> _] | [[_ [=]] | [Hp H]]]; [| |by right].
    + intros [Heq|Hin]%elem_of_cons; [by simplify_eq|].
      apply finditer_lower_bound in Hin. lia.
    + apply IH in H. intros [Heq|Hin]%elem_of_cons.
      * simplify_eq.
      * by replace (pos + p + 3) with (pos + 14 + (p - 14) + 3) in Hin by lia.
  - intros pos c rest H1 H2 IH [|p] H.
    { change (startswith (c :: rest) ENDDOCUMENT = true) in H. congruence. }
    change (occurs rest ENDDOCUMENT p = true) in H. apply IH in H.
    by replace (pos + S p + 3) with (S pos + p + 3) by lia.
Qed.

(** The tokens are in the order of the text and do not overlap. *)
Lemma finditer_ordered (pos : nat) (s : str) (i j p q : nat) (tok tok' : str) :
  i < j ->
  finditer_from 0 pos s !! i = Some (p, tok) ->
  finditer_from 0 pos s !! j = Some (q, tok') ->
  p + length tok <= q.
Proof.
  revert i j. pattern pos, s, (finditer_from 0 pos s). apply finditer_cases; clear pos s.
  - intros pos i j _ H. by rewrite lookup_nil in H.
  - intros pos rest IH [|i] [|j] Hij Hi Hj; try lia.
    + simpl in Hi, Hj. simplify_eq.
      apply list_elem_of_lookup_2, finditer_lower_bound in Hj.
      change (length DOCUMENT) with 11. lia.
    + simpl in Hi, Hj. apply (IH i j); [lia|done..].
  - intros pos rest IH [|i] [|j] Hij Hi Hj; try lia.
    + simpl in Hi, Hj. simplify_eq.
      apply list_elem_of_lookup_2, finditer_lower_bound in Hj.
      change (length ENDDOCUMENT) with 14. lia.
    + simpl in Hi, Hj. apply (IH i j); [lia|done..].
  - intros pos c rest _ _ IH i j. apply IH.
Qed.

(** C9: every occurrence of the end marker is one end-marker token, and the
    begin marker inside it is not a token.  The tokens are exactly the
    markers of the text, from left to right and without overlap: each token
    is a marker at an offset where that marker occurs, every begin marker
    outside an end marker is a token, and a token ends before the next
    starts. *)
Theorem finditer_markers (s : str) :
  (forall p, occurs s ENDDOCUMENT p = true ->
     (p, ENDDOCUMENT) ∈ finditer s /\ (p + 3, DOCUMENT) ∉ finditer s) /\
  (forall p tok, (p, tok) ∈ finditer s ->
     (tok = DOCUMENT \/ tok = ENDDOCUMENT) /\ occurs s tok p = true) /\
  (forall p, occurs s DOCUMENT p = true ->
     (p, DOCUMENT) ∈ finditer s \/ (3 <= p /\ occurs s ENDDOCUMENT (p - 3) = true)) /\
  (forall i j p q tok tok', i < j ->
     finditer s !! i = Some (p, tok) -> finditer s !! j = Some (q, tok') ->
     p + length tok <= q).
Proof.
  unfold finditer. repeat split.
  - destruct (finditer_complete 0 s ENDDOCUMENT p) as [H'|[[=] _]]; auto.
  - by apply (finditer_not_embedded 0).
  - by apply finditer_sound in H as (? & _ & _).
  - apply finditer_sound in H as (_ & _ & H). by rewrite Nat.sub_0_r in H.
  - intros p H. destruct (finditer_complete 0 s DOCUMENT p) as [H'|(_ & ? & ?)]; auto.
  - intros i j p q tok tok'. apply finditer_ordered.
Qed.

Lemma finditer_markers_witness :
  (0, ENDDOCUMENT) ∈ finditer (ENDDOCUMENT ++ DOCUMENT) /\
  (0 + 3, DOCUMENT) ∉ finditer (ENDDOCUMENT ++ DOCUMENT).
Proof.
  apply (proj1 (finditer_markers (ENDDOCUMENT ++ DOCUMENT)) 0). reflexivity.
Defined.

(** ** Text before the scanned part *)

Lemma finditer_from_shift (skip pos d : nat) (s : str) :
  finditer_from skip (d + pos) s = map (shift_token d) (finditer_from skip pos s).
Proof.
  revert skip pos. induction s as [|c s IH]; intros skip pos; [done|].
  cbn [finditer_from]. destruct skip as [|k].
  - replace (S (d + pos)) with (d + S pos) by lia.
    destruct (startswith (c :: s) DOCUMENT); [by rewrite IH|].
    destruct (startswith (c :: s) ENDDOCUMENT); by rewrite IH.
  - replace (S (d + pos)) with (d + S pos) by lia. apply IH.
Qed.

Lemma close_block_shift (pre s : str) (start pos : nat) :
  close_block (pre ++ s) (length pre + start) (length pre + pos) = close_block s start pos.
Proof.
  unfold close_block, slice.
  rewrite <- !Nat.add_assoc, !drop_app_add, !to_eol_rest_of_line.
  set (line := length (rest_of_line _)).
  by replace (length pre + (pos + length ENDDOCUMENT) + line - (length pre + start))
    with (pos + length ENDDOCUMENT + line - start) by lia.
Qed.

Lemma loop_body_shift (pre s : str) (st : loop_state) (tk : nat * str) :
  loop_body (pre ++ s) (shift_state (length pre) st) (shift_token (length pre) tk)
  = shift_state (length pre) (loop_body s st tk).
Proof.
  destruct tk as [pos tok], st as [bs lv cur]. unfold loop_body, shift_token, shift_state.
  cbn [fst snd blocks level current_start].
  case_bool_decide.
  - by destruct (lv =? 0).
  - destruct (0 <? lv); [|done].
    destruct (lv - 1 =? 0), cur as [start|]; cbn [fmap option_fmap option_map]; [|done..].
    cbn. by rewrite close_block_shift.
Qed.

Lemma run_tokens_shift (pre s : str) (st : loop_state) (tokens : list (nat * str)) :
  run_tokens (pre ++ s) (shift_state (length pre) st) (map (shift_token (length pre)) tokens)
  = shift_state (length pre) (run_tokens s st tokens).
Proof.
  unfold run_tokens. revert st. induction tokens as [|tk tokens IH]; intros st; [done|].
  cbn [map fold_left]. by rewrite loop_body_shift, IH.
Qed.

(** C5: an end marker met while the counter is zero changes nothing (neither
    the counter nor the pending start nor the blocks) and the loop goes on
    with the next token.  A text that starts with a stray end marker gives
    the blocks of the text after that marker.  No step of the extractor
    raises: its only partial operation, the index [s[end_pos]] of the inner
    loop, stays inside the string. *)
Theorem stray_end_marker_ignored (s : str) (st : loop_state) (pos : nat) :
  level st = 0 ->
  loop_body s st (pos, ENDDOCUMENT) = st /\
  (forall more, run_tokens s st ((pos, ENDDOCUMENT) :: more) = run_tokens s st more) /\
  (forall gap rest, filler_ok gap End = true ->
     extract_pg_blocks_tokenized (gap ++ ENDDOCUMENT ++ rest)
     = extract_pg_blocks_tokenized rest) /\
  (forall text end_pos,
     to_eol_indexed (S (length text)) text end_pos
     = Done (to_eol (drop end_pos text) end_pos)).
Proof.
  intros Hlevel.
  assert (forall s, loop_body s st (pos, ENDDOCUMENT) = st) as Hstep.
  { intros s'. rewrite loop_body_end. by rewrite Hlevel. }
  split; [done|]. split; [|split].
  3:{ intros text end_pos. apply to_eol_indexed_spec. lia. }
  - intros more. unfold run_tokens. cbn [fold_left]. by rewrite Hstep.
  - intros gap rest Hgap. rewrite !extract_run. unfold finditer.
    rewrite finditer_to_ENDDOCUMENT by done.
    unfold run_tokens at 1. cbn [fold_left].
    change (loop_body (gap ++ ENDDOCUMENT ++ rest) loop_init (0 + length gap, ENDDOCUMENT))
      with loop_init.
    replace (0 + length gap + 14) with (length (gap ++ ENDDOCUMENT) + 0)
      by (rewrite length_app; change (length ENDDOCUMENT) with 14; lia).
    rewrite finditer_from_shift, (assoc_L app).
    pose proof (run_tokens_shift (gap ++ ENDDOCUMENT) rest loop_init
                  (finditer_from 0 0 rest)) as H.
    unfold run_tokens in H at 1.
    change (shift_state (length (gap ++ ENDDOCUMENT)) loop_init) with loop_init in H at 1.
    by rewrite H.
Qed.

Lemma stray_end_marker_ignored_witness :
  loop_body (py "x" ++ ENDDOCUMENT) loop_init (1, ENDDOCUMENT) = loop_init /\
  (forall more,
     run_tokens (py "x" ++ ENDDOCUMENT) loop_init ((1, ENDDOCUMENT) :: more)
     = run_tokens (py "x" ++ ENDDOCUMENT) loop_init more) /\
  (forall gap rest, filler_ok gap End = true ->
     extract_pg_blocks_tokenized (gap ++ ENDDOCUMENT ++ rest)
     = extract_pg_blocks_tokenized rest) /\
  (forall text end_pos,
     to_eol_indexed (S (length text)) text end_pos
     = Done (to_eol (drop end_pos text) end_pos)).
Proof.
  apply (stray_end_marker_ignored (py "x" ++ ENDDOCUMENT) loop_init 1). reflexivity.
Defined.

(** ** Balance of the blocks *)

Lemma count_tokens_app (tok : str) (xs ys : list (nat * str)) :
  count_tokens tok (xs ++ ys) = count_tokens tok xs + count_tokens tok ys.
Proof. unfold count_tokens. by rewrite filter_app, length_app. Qed.

Lemma run_tokens_snoc (s : str) (st : loop_state) (tokens : list (nat * str)) (tk : nat * str) :
  run_tokens s st (tokens ++ [tk]) = loop_body s (run_tokens s st tokens) tk.
Proof. unfold run_tokens. by rewrite fold_left_app. Qed.

Lemma block_tokens_snoc tokens before inside after start pos (tk : nat * str) :
  block_tokens tokens before inside after start pos ->
  block_tokens (tokens ++ [tk]) before inside (after ++ [tk]) start pos.
Proof.
  intros (-> & ? & ?). split; [|done]. by rewrite <- !(assoc_L app).
Qed.

Lemma head_snoc {A} (l : list A) (x y : A) : head l = Some x -> head (l ++ [y]) = Some x.
Proof. by destruct l. Qed.

Lemma loop_invariant_step (s : str) (consumed : list (nat * str)) (pos : nat) (tok : str) :
  tok = DOCUMENT \/ tok = ENDDOCUMENT ->
  loop_invariant s consumed (run_tokens s loop_init consumed) ->
  loop_invariant s (consumed ++ [(pos, tok)]) (run_tokens s loop_init (consumed ++ [(pos, tok)])).
Proof.
  intros Htok [Hblocks Hout Hin]. rewrite run_tokens_snoc.
  set (st := run_tokens s loop_init consumed) in *.
  assert (forall block, block ∈ blocks st ->
            exists before inside after start pos',
              block_tokens (consumed ++ [(pos, tok)]) before inside after start pos' /\
              count_tokens DOCUMENT inside = count_tokens ENDDOCUMENT inside /\
              block = close_block s start pos') as Hold.
  { intros block (before & inside & after & start & pos' & H & ? & ?)%Hblocks.
    exists before, inside, (after ++ [(pos, tok)]), start, pos'.
    split; [by apply block_tokens_snoc | done]. }
  destruct Htok as [-> | ->].
  - (* a begin marker *)
    rewrite loop_body_begin. split; cbn [blocks level current_start].
    + done.
    + lia.
    + intros _. destruct (Nat.eqb_spec (level st) 0) as [Hzero | Hpos].
      * exists consumed, [(pos, DOCUMENT)], pos.
        rewrite Hzero. by repeat split.
      * destruct Hin as (before & pending & start & -> & Hhead & Hcur & Hlevel & Hbs & Hcount);
          [lia|].
        exists before, (pending ++ [(pos, DOCUMENT)]), start.
        rewrite <- (assoc_L app), !count_tokens_app, Hcount.
        repeat split; [by apply head_snoc | done..| ].
        change (count_tokens DOCUMENT [(pos, DOCUMENT)]) with 1.
        change (count_tokens ENDDOCUMENT [(pos, DOCUMENT)]) with 0. lia.
  - (* an end marker *)
    rewrite loop_body_end. destruct (Nat.ltb_spec 0 (level st)) as [Hpos | Hzero].
    2:{ split; [done|done|]. intros ?. lia. }
    destruct Hin as (before & pending & start & -> & Hhead & Hcur & Hlevel & Hbs & Hcount);
      [done|].
    rewrite Hcur. destruct (Nat.eqb_spec (level st - 1) 0) as [Hone | Hmore].
    + split; cbn [blocks level current_start]; [|done|lia].
      intros block [Hblock | ->%list_elem_of_singleton]%elem_of_app; [by apply Hold|].
      exists before, (pending ++ [(pos, ENDDOCUMENT)]), [], start, pos.
      repeat split.
      * by rewrite app_nil_r, <- (assoc_L app).
      * by apply head_snoc.
      * apply last_snoc.
      * rewrite !count_tokens_app, Hcount.
        change (count_tokens DOCUMENT [(pos, ENDDOCUMENT)]) with 0.
        change (count_tokens ENDDOCUMENT [(pos, ENDDOCUMENT)]) with 1. lia.
    + split; cbn [blocks level current_start]; [done|lia|].
      intros _. exists before, (pending ++ [(pos, ENDDOCUMENT)]), start.
      rewrite <- (assoc_L app), !count_tokens_app, Hcount.
      repeat split; [by apply head_snoc | done..| ].
      change (count_tokens DOCUMENT [(pos, ENDDOCUMENT)]) with 0.
      change (count_tokens ENDDOCUMENT [(pos, ENDDOCUMENT)]) with 1. lia.
Qed.

Lemma loop_invariant_run (s : str) (tokens : list (nat * str)) :
  Forall (fun tk => tk.2 = DOCUMENT \/ tk.2 = ENDDOCUMENT) tokens ->
  loop_invariant s tokens (run_tokens s loop_init tokens).
Proof.
  induction tokens as [|[pos tok] tokens IH] using rev_ind; intros Htokens.
  - split; cbn; [by intros ? ?%elem_of_nil | done | lia].
  - apply Forall_app in Htokens as [Htokens Htk]. rewrite Forall_singleton in Htk.
    apply loop_invariant_step; [done|]. by apply IH.
Qed.

Lemma finditer_tokens (s : str) :
  Forall (fun tk => tk.2 = DOCUMENT \/ tk.2 = ENDDOCUMENT) (finditer s).
Proof.
  apply Forall_forall. intros [pos tok] H.
  by apply finditer_sound in H as (? & _).
Qed.

Lemma run_tokens_cons (s : str) (st : loop_state) (tk : nat * str) (tokens : list (nat * str)) :
  run_tokens s st (tk :: tokens) = run_tokens s (loop_body s st tk) tokens.
Proof. reflexivity. Qed.

Lemma run_tokens_app (s : str) (st : loop_state) (xs ys : list (nat * str)) :
  run_tokens s st (xs ++ ys) = run_tokens s (run_tokens s st xs) ys.
Proof. unfold run_tokens. by rewrite fold_left_app. Qed.

Lemma run_stray_ends (s : str) (ends : list (nat * str)) :
  Forall (fun tk => tk.2 = ENDDOCUMENT) ends ->
  run_tokens s loop_init ends = loop_init.
Proof.
  induction ends as [|[pos tok] ends IH]; intros Hends; [done|].
  apply Forall_cons in Hends as [Htok Hends]. simpl in Htok. subst tok.
  rewrite run_tokens_cons.
  change (loop_body s loop_init (pos, ENDDOCUMENT)) with loop_init. by apply IH.
Qed.

Lemma run_begins (s : str) (st : loop_state) (begins : list (nat * str)) :
  Forall (fun tk => tk.2 = DOCUMENT) begins ->
  blocks (run_tokens s st begins) = blocks st.
Proof.
  revert st. induction begins as [|[pos tok] begins IH]; intros st Hbegins; [done|].
  apply Forall_cons in Hbegins as [Htok Hbegins]. simpl in Htok. subst tok.
  rewrite run_tokens_cons, IH by done. by rewrite loop_body_begin.
Qed.

(** C4: a completed block has consumed as many begin markers as end
    markers, between the begin marker that opened it and the end marker that
    closed it.  A block still pending after the last token gives no output:
    the result is what the loop had produced when the pending block was
    opened.  A text where no end marker follows the first begin marker, and
    so a text with one begin marker and no end marker, gives no block. *)
Theorem balanced_blocks (s : str) :
  (forall block, block ∈ extract_pg_blocks_tokenized s ->
     exists before inside after start pos,
       block_tokens (finditer s) before inside after start pos /\
       count_tokens DOCUMENT inside = count_tokens ENDDOCUMENT inside /\
       block = close_block s start pos) /\
  (0 < level (run_tokens s loop_init (finditer s)) ->
     exists before pending start,
       finditer s = before ++ pending /\
       head pending = Some (start, DOCUMENT) /\
       current_start (run_tokens s loop_init (finditer s)) = Some start /\
       level (run_tokens s loop_init before) = 0 /\
       extract_pg_blocks_tokenized s = blocks (run_tokens s loop_init before)) /\
  (forall ends begins,
     finditer s = ends ++ begins ->
     Forall (fun tk => tk.2 = ENDDOCUMENT) ends ->
     Forall (fun tk => tk.2 = DOCUMENT) begins ->
     extract_pg_blocks_tokenized s = []) /\
  (forall gap tail,
     s = gap ++ DOCUMENT ++ tail ->
     filler_ok gap Begin = true -> plain tail = true ->
     extract_pg_blocks_tokenized s = []).
Proof.
  pose proof (loop_invariant_run s (finditer s) (finditer_tokens s)) as [Hblocks _ Hin].
  rewrite extract_run.
  assert (forall ends begins,
            finditer s = ends ++ begins ->
            Forall (fun tk => tk.2 = ENDDOCUMENT) ends ->
            Forall (fun tk => tk.2 = DOCUMENT) begins ->
            blocks (run_tokens s loop_init (finditer s)) = []) as Hnone.
  { intros ends begins -> Hends Hbegins.
    by rewrite run_tokens_app, run_stray_ends, run_begins. }
  repeat split.
  - done.
  - intros Hlevel.
    destruct (Hin Hlevel) as (before & pending & start & ? & ? & ? & ? & ? & _).
    by exists before, pending, start.
  - done.
  - intros gap tail -> Hgap Htail.
    apply (Hnone [] [(length gap, DOCUMENT)]); [|done|by repeat constructor].
    unfold finditer. by rewrite finditer_to_DOCUMENT, finditer_plain.
Qed.

Lemma balanced_blocks_witness :
  (exists before inside after start pos,
     block_tokens (finditer (DOCUMENT ++ ENDDOCUMENT)) before inside after start pos /\
     count_tokens DOCUMENT inside = count_tokens ENDDOCUMENT inside /\
     DOCUMENT ++ ENDDOCUMENT ++ [nl] = close_block (DOCUMENT ++ ENDDOCUMENT) start pos) /\
  (exists before pending start,
     finditer (DOCUMENT ++ ENDDOCUMENT ++ DOCUMENT) = before ++ pending /\
     head pending = Some (start, DOCUMENT) /\
     current_start (run_tokens (DOCUMENT ++ ENDDOCUMENT ++ DOCUMENT) loop_init
                      (finditer (DOCUMENT ++ ENDDOCUMENT ++ DOCUMENT))) = Some start /\
     level (run_tokens (DOCUMENT ++ ENDDOCUMENT ++ DOCUMENT) loop_init before) = 0 /\
     extract_pg_blocks_tokenized (DOCUMENT ++ ENDDOCUMENT ++ DOCUMENT)
     = blocks (run_tokens (DOCUMENT ++ ENDDOCUMENT ++ DOCUMENT) loop_init before)) /\
  extract_pg_blocks_tokenized (py "x" ++ DOCUMENT ++ py "y") = [].
Proof.
  split; [|split].
  - apply (proj1 (balanced_blocks (DOCUMENT ++ ENDDOCUMENT))).
    vm_compute. apply list_elem_of_here.
  - apply (proj1 (proj2 (balanced_blocks (DOCUMENT ++ ENDDOCUMENT ++ DOCUMENT)))).
    vm_compute. lia.
  - apply (proj2 (proj2 (proj2 (balanced_blocks (py "x" ++ DOCUMENT ++ py "y"))))
             (py "x") (py "y")); reflexivity.
Defined.

(** ** The name sanitizer *)

Lemma replace_char_cons (c a : N) (s new : str) :
  replace (c :: s) [a] new
  = if N.eqb c a then new ++ replace s [a] new else c :: replace s [a] new.
Proof.
  unfold replace. cbn [replace_from startswith length Nat.sub].
  by rewrite andb_true_r.
Qed.

Lemma replace_char_app (x y : str) (a : N) (new : str) :
  replace (x ++ y) [a] new = replace x [a] new ++ replace y [a] new.
Proof.
  induction x as [|c x IH]; [done|].
  rewrite <- app_comm_cons, !replace_char_cons, IH.
  destruct (N.eqb c a); [by rewrite (assoc_L app) | done].
Qed.

Lemma replace_char_absent (x : str) (a : N) (new : str) :
  a ∉ x -> replace x [a] new = x.
Proof.
  induction x as [|c x IH]; intros Hx; [done|].
  apply not_elem_of_cons in Hx as [Hc Hx]. rewrite replace_char_cons, IH by done.
  by destruct (N.eqb_spec c a) as [->|].
Qed.

Lemma elem_of_replace_char (x : str) (a b c : N) :
  c ∈ replace x [a] [b] -> c = b \/ (c ∈ x /\ c <> a).
Proof.
  induction x as [|d x IH]; [by intros ?%elem_of_nil|].
  rewrite replace_char_cons. destruct (N.eqb_spec d a) as [->|Hd].
  - intros [->|H]%elem_of_cons; [by left|].
    destruct (IH H) as [?|[? ?]]; [by left|]. right. split; [by apply elem_of_cons; right|done].
  - intros [->|H]%elem_of_cons.
    + right. split; [apply list_elem_of_here | done].
    + destruct (IH H) as [?|[? ?]]; [by left|]. right. split; [by apply elem_of_cons; right|done].
Qed.

(** The words of [split] hold no whitespace and no character that is not in
    the text. *)
Lemma split_from_words (word s w : str) :
  w ∈ split_from word s ->
  forall c, c ∈ w -> (c ∈ word \/ (c ∈ s /\ isspace c = false)).
Proof.
  revert word. induction s as [|d s IH]; intros word Hw c Hc.
  - destruct word; [by apply elem_of_nil in Hw|].
    apply list_elem_of_singleton in Hw as ->. by left.
  - cbn [split_from] in Hw. destruct (isspace d) eqn:Hd.
    + destruct word as [|e word].
      * destruct (IH _ Hw c Hc) as [?%elem_of_nil|[? ?]]; [done|].
        right. split; [by apply elem_of_cons; right | done].
      * apply elem_of_cons in Hw as [-> | Hw]; [by left|].
        destruct (IH _ Hw c Hc) as [?%elem_of_nil|[? ?]]; [done|].
        right. split; [by apply elem_of_cons; right | done].
    + destruct (IH _ Hw c Hc) as [[?| ->%list_elem_of_singleton]%elem_of_app|[? ?]].
      * by left.
      * right. split; [apply list_elem_of_here | done].
      * right. split; [by apply elem_of_cons; right | done].
Qed.

Lemma split_words (s w : str) (c : N) :
  w ∈ split s -> c ∈ w -> c ∈ s /\ isspace c = false.
Proof.
  intros Hw Hc. by destruct (split_from_words [] s w Hw c Hc) as [?%elem_of_nil|?].
Qed.

Lemma elem_of_join (sep : str) (words : list str) (c : N) :
  c ∈ join sep words -> c ∈ sep \/ exists w, w ∈ words /\ c ∈ w.
Proof.
  induction words as [|w words IH]; [by intros ?%elem_of_nil|].
  cbn [join]. destruct words as [|w' words].
  - intros Hc. right. exists w. split; [apply list_elem_of_here | done].
  - intros [Hc|[Hc|Hc]%elem_of_app]%elem_of_app.
    + right. exists w. split; [apply list_elem_of_here | done].
    + by left.
    + destruct (IH Hc) as [?|(w'' & ? & ?)]; [by left|].
      right. exists w''. split; [by apply elem_of_cons; right | done].
Qed.

Lemma replace_join (words : list str) (a b : N) :
  Forall (fun w => a ∉ w) words ->
  replace (join [a] words) [a] [b] = join [b] words.
Proof.
  induction words as [|w words IH]; intros Hwords; [done|].
  apply Forall_cons in Hwords as [Hw Hwords]. cbn [join]. destruct words as [|w' words].
  - by apply replace_char_absent.
  - rewrite !replace_char_app, IH, replace_char_absent by done.
    rewrite replace_char_cons, N.eqb_refl. done.
Qed.

(** What [lstrip], [rstrip] and [strip] leave. *)
Lemma lstrip_with_suffix (drop : N -> bool) (s : str) :
  exists dropped, s = dropped ++ lstrip_with drop s.
Proof.
  induction s as [|c s [dropped IH]]; [by exists (@nil N)|].
  cbn [lstrip_with]. destruct (drop c).
  - exists (c :: dropped). by rewrite <- app_comm_cons, <- IH.
  - by exists (@nil N).
Qed.

Lemma lstrip_with_head (drop : N -> bool) (s : str) (c : N) :
  head (lstrip_with drop s) = Some c -> drop c = false.
Proof.
  induction s as [|d s IH]; [done|].
  cbn [lstrip_with]. destruct (drop d) eqn:Hd; [done|]. by intros [= <-].
Qed.

Lemma rstrip_with_prefix (drop : N -> bool) (s : str) :
  exists dropped, s = rstrip_with drop s ++ dropped.
Proof.
  unfold rstrip_with. destruct (lstrip_with_suffix drop (reverse s)) as [dropped H].
  exists (reverse dropped). rewrite <- reverse_app, <- H. by rewrite reverse_involutive.
Qed.

Lemma strip_with_sub (drop : N -> bool) (s : str) (c : N) :
  c ∈ strip_with drop s -> c ∈ s.
Proof.
  unfold strip_with. intros Hc.
  destruct (rstrip_with_prefix drop (lstrip_with drop s)) as [d1 H1].
  destruct (lstrip_with_suffix drop s) as [d2 H2].
  rewrite H2, H1. apply elem_of_app. right. apply elem_of_app. by left.
Qed.

Lemma strip_with_ends (drop : N -> bool) (s : str) (c : N) :
  head (strip_with drop s) = Some c \/ last (strip_with drop s) = Some c ->
  drop c = false.
Proof.
  unfold strip_with. intros [H|H].
  - destruct (rstrip_with_prefix drop (lstrip_with drop s)) as [d1 H1].
    apply (lstrip_with_head drop s). rewrite H1.
    by destruct (rstrip_with drop (lstrip_with drop s)).
  - unfold rstrip_with in H. rewrite last_reverse in H.
    by apply lstrip_with_head in H.
Qed.

Lemma lstrip_with_nil (drop : N -> bool) (s : str) :
  lstrip_with drop s = [] <-> Forall (fun c => drop c = true) s.
Proof.
  induction s as [|c s IH]; [by split; [constructor|]|].
  cbn [lstrip_with]. destruct (drop c) eqn:Hc.
  - rewrite IH. split; [by constructor | by intros [_ ?]%Forall_cons].
  - split; [done|]. intros [? _]%Forall_cons. congruence.
Qed.

(** The text is blank when stripping leaves nothing. *)
Lemma strip_blank (s : str) :
  strip s = [] <-> Forall (fun c => isspace c = true) s.
Proof.
  unfold strip, strip_with, rstrip_with. rewrite <- lstrip_with_nil. split.
  - intros H. apply (f_equal reverse) in H. rewrite reverse_involutive in H.
    change (reverse []) with (@nil N) in H. apply lstrip_with_nil in H.
    rewrite Forall_reverse in H.
    destruct (lstrip_with isspace s) as [|c rest] eqn:Hs; [done|].
    apply Forall_cons in H as [Hc _].
    assert (head (lstrip_with isspace s) = Some c) as Hhead by (by rewrite Hs).
    apply lstrip_with_head in Hhead. congruence.
  - by intros ->.
Qed.

Lemma ALLOWED_CHARS_spec (c : N) :
  c ∈ ALLOWED_CHARS <-> c = 32%N \/ c ∈ ascii_letters ++ digits ++ py "_.-".
Proof.
  unfold ALLOWED_CHARS. rewrite elem_of_list_to_set, !elem_of_app.
  change (py " _.-") with (32%N :: py "_.-"). rewrite elem_of_cons. tauto.
Qed.

Lemma filter_none (P : N -> Prop) `{!forall c, Decision (P c)} (s : str) :
  (forall c, c ∈ s -> ~ P c) -> filter P s = [].
Proof.
  induction s as [|c s IH]; intros Hs; [done|].
  rewrite filter_cons_False by (apply Hs, list_elem_of_here).
  apply IH. intros d Hd. apply Hs. by apply elem_of_cons; right.
Qed.

(** The name before the fall-back to the default. *)
Lemma sanitize_basename_unfold (name : str) :
  sanitize_basename name
  = str_or (strip_chars
              (join (py "-") (split (filter (fun ch => ch ∈ ALLOWED_CHARS) (strip name))))
              (py " .-"))
      (py "webwork-problems").
Proof.
  unfold sanitize_basename.
  replace (str_or name []) with name by (by destruct name).
  do 2 f_equal. apply (replace_join _ 32%N 45%N).
  apply Forall_forall. intros w Hw Hsp.
  by destruct (split_words _ _ _ Hw Hsp) as [_ ?].
Qed.

(** C7, as stated, fails for whitespace other than the space character: a
    tab between two words is removed, not turned into a hyphen. *)
Lemma sanitize_basename_tab_counterexample :
  isspace 9%N = true /\
  sanitize_basename (py "a" ++ [9%N] ++ py "b") = py "ab" /\
  sanitize_basename (py "a" ++ [9%N] ++ py "b") <> py "a-b".
Proof. split; [|split; [|intros H; revert H]]; vm_compute; done. Qed.

(** C7, amended: the sanitizer is total; its result holds only ASCII letters,
    digits, underscores, dots and hyphens; it is the words of the name
    without its disallowed characters (the maximal runs of characters other
    than the space, the only whitespace that is allowed), joined by single
    hyphens and trimmed of leading and trailing spaces, dots and hyphens, or
    the default name when nothing is left; a name without allowed characters
    gives the default name; and the example of the spec holds. *)
Theorem sanitize_basename_spec (name : str) :
  (forall c, c ∈ sanitize_basename name -> c ∈ ascii_letters ++ digits ++ py "_.-") /\
  sanitize_basename name
  = str_or (strip_chars
              (join (py "-") (split (filter (fun ch => ch ∈ ALLOWED_CHARS) (strip name))))
              (py " .-"))
      (py "webwork-problems") /\
  sanitize_basename name <> [] /\
  (forall c, head (sanitize_basename name) = Some c \/ last (sanitize_basename name) = Some c ->
     c ∉ py " .-") /\
  (Forall (fun c => c ∉ ALLOWED_CHARS) name ->
     sanitize_basename name = py "webwork-problems") /\
  sanitize_basename (py "My Cool   Problems!!") = py "My-Cool-Problems".
Proof.
  split; [|split; [apply sanitize_basename_unfold|]].
  { rewrite sanitize_basename_unfold. intros c.
    set (words := split _). set (trimmed := strip_chars _ _).
    destruct trimmed as [|d trimmed'] eqn:Htrimmed.
    - cbn [str_or]. intros Hc%list_elem_of_In.
      assert (forallb (fun c => bool_decide (c ∈ ascii_letters ++ digits ++ py "_.-"))
                (py "webwork-problems") = true) as Hdefault by (vm_compute; reflexivity).
      rewrite forallb_forall in Hdefault.
      by apply Hdefault, bool_decide_eq_true in Hc.
    - cbn [str_or]. rewrite <- Htrimmed. clear Htrimmed. intros Hc.
      apply strip_with_sub, elem_of_join in Hc as [Hc | (w & Hw & Hc)].
      + apply list_elem_of_singleton in Hc as ->.
        apply (bool_decide_unpack _). by vm_compute.
      + destruct (split_words _ _ _ Hw Hc) as [[Hallowed _]%list_elem_of_filter Hspace].
        apply ALLOWED_CHARS_spec in Hallowed as [-> | ?]; [done | done]. }
  rewrite sanitize_basename_unfold.
  set (trimmed := strip_chars _ _).
  split; [|split; [|split]].
  - by destruct trimmed.
  - intros c Hc. destruct trimmed as [|d trimmed'] eqn:Htrimmed.
    + cbn [str_or] in Hc. vm_compute in Hc.
      destruct Hc as [[= <-] | [= <-]]; apply (bool_decide_unpack _); by vm_compute.
    + cbn [str_or] in Hc. rewrite <- Htrimmed in Hc.
      apply strip_with_ends in Hc. by apply bool_decide_eq_false in Hc.
  - intros Hname. subst trimmed. rewrite Forall_forall in Hname.
    rewrite filter_none; [done|].
    intros c Hc. apply Hname. by apply strip_with_sub in Hc.
  - vm_compute. reflexivity.
Qed.

Lemma sanitize_basename_spec_witness :
  Forall (fun c => c ∉ ALLOWED_CHARS) (py "!?" ++ [9%N]) /\
  sanitize_basename (py "!?" ++ [9%N]) = py "webwork-problems".
Proof.
  assert (Forall (fun c => c ∉ ALLOWED_CHARS) (py "!?" ++ [9%N])) as H.
  { apply (bool_decide_unpack _). by vm_compute. }
  split; [exact H|].
  apply (proj1 (proj2 (proj2 (proj2 (proj2 (sanitize_basename_spec (py "!?" ++ [9%N])))))) H).
Defined.

(** ** The path allocator *)

Section Allocation.

Context {platform : Platform}.

(** The path that the loop of [unique_subfolder] probes for [k]. *)
Local Abbreviation candidate root base k :=
  (joinpath root (base ++ py "-" ++ str_of_int k)).

Lemma subfolder_loop_first_absent (fuel : nat) (fs : FS) (root : Path) (base : str) (k0 k : nat) :
  k0 <= k -> k - k0 < fuel ->
  (forall j, k0 <= j < k -> path_exists fs (candidate root base j) = true) ->
  path_exists fs (candidate root base k) = false ->
  subfolder_loop fuel fs root base k0 = Some (candidate root base k).
Proof.
  revert k0. induction fuel as [|fuel IH]; intros k0 Hle Hfuel Hbelow Habsent; [lia|].
  cbn [subfolder_loop]. destruct (decide (k0 = k)) as [->|Hne].
  - by rewrite Habsent.
  - rewrite Hbelow by lia. cbn [negb]. apply IH; [lia..| |done].
    intros j Hj. apply Hbelow. lia.
Qed.

Lemma subfolder_loop_absent (fuel : nat) (fs : FS) (root : Path) (base : str) (k0 : nat) (p : Path) :
  subfolder_loop fuel fs root base k0 = Some p -> path_exists fs p = false.
Proof.
  revert k0. induction fuel as [|fuel IH]; intros k0; [done|].
  cbn [subfolder_loop].
  destruct (path_exists fs (candidate root base k0)) eqn:Hk; cbn [negb].
  - apply IH.
  - by intros [= <-].
Qed.

Lemma subfolder_loop_all_exist (fuel : nat) (fs : FS) (root : Path) (base : str) (k0 : nat) :
  (forall j, k0 <= j -> path_exists fs (candidate root base j) = true) ->
  subfolder_loop fuel fs root base k0 = None.
Proof.
  revert k0. induction fuel as [|fuel IH]; intros k0 Hall; [done|].
  cbn [subfolder_loop]. rewrite Hall by lia. cbn [negb].
  apply IH. intros j Hj. apply Hall. lia.
Qed.

Lemma unique_subfolder_absent (fuel : nat) (fs : FS) (root : Path) (base : str) (p : Path) :
  unique_subfolder fuel fs root base = Some p -> path_exists fs p = false.
Proof.
  unfold unique_subfolder.
  destruct (path_exists fs (joinpath root base)) eqn:Hbase; cbn [negb].
  - apply subfolder_loop_absent.
  - by intros [= <-].
Qed.

(** C8: the allocator returns [root/base] when that path is absent, and
    otherwise [root/base-k] for the smallest [k >= 1] whose path is absent,
    as soon as the loop is run for [k] iterations; the path it returns does
    not exist.  With [base] present and [base-1] absent it returns [base-1];
    with [base] and [base-1] present and [base-2] absent it returns
    [base-2].  When every [base-k] exists the loop does not return. *)
Theorem unique_subfolder_spec (fs : FS) (root : Path) (base : str) :
  (path_exists fs (joinpath root base) = false ->
   forall fuel, unique_subfolder fuel fs root base = Some (joinpath root base)) /\
  (forall k fuel,
     path_exists fs (joinpath root base) = true ->
     1 <= k -> k <= fuel ->
     (forall j, 1 <= j < k -> path_exists fs (candidate root base j) = true) ->
     path_exists fs (candidate root base k) = false ->
     unique_subfolder fuel fs root base = Some (candidate root base k)) /\
  (forall fuel p, unique_subfolder fuel fs root base = Some p -> path_exists fs p = false) /\
  (forall fuel,
     path_exists fs (joinpath root base) = true ->
     path_exists fs (joinpath root (base ++ py "-1")) = false ->
     1 <= fuel ->
     unique_subfolder fuel fs root base = Some (joinpath root (base ++ py "-1"))) /\
  (forall fuel,
     path_exists fs (joinpath root base) = true ->
     path_exists fs (joinpath root (base ++ py "-1")) = true ->
     path_exists fs (joinpath root (base ++ py "-2")) = false ->
     2 <= fuel ->
     unique_subfolder fuel fs root base = Some (joinpath root (base ++ py "-2"))) /\
  (path_exists fs (joinpath root base) = true ->
   (forall k, 1 <= k -> path_exists fs (candidate root base k) = true) ->
   forall fuel, unique_subfolder fuel fs root base = None).
Proof.
  assert (forall k fuel,
            path_exists fs (joinpath root base) = true ->
            1 <= k -> k <= fuel ->
            (forall j, 1 <= j < k -> path_exists fs (candidate root base j) = true) ->
            path_exists fs (candidate root base k) = false ->
            unique_subfolder fuel fs root base = Some (candidate root base k)) as Hfirst.
  { intros k fuel Hbase Hk Hfuel Hbelow Habsent. unfold unique_subfolder.
    rewrite Hbase. cbn [negb]. apply subfolder_loop_first_absent; [lia..|done|done]. }
  split; [|split; [done|split; [|split; [|split]]]].
  - intros Hbase fuel. unfold unique_subfolder. by rewrite Hbase.
  - intros fuel p. apply unique_subfolder_absent.
  - intros fuel Hbase H1 Hfuel. apply (Hfirst 1 fuel); [done|lia|lia| |done].
    intros j Hj. lia.
  - intros fuel Hbase H1 H2 Hfuel. apply (Hfirst 2 fuel); [done|lia|lia| |done].
    intros j Hj. by replace j with 1 by lia.
  - intros Hbase Hall fuel. unfold unique_subfolder. rewrite Hbase. cbn [negb].
    by apply subfolder_loop_all_exist.
Qed.

End Allocation.

Lemma unique_subfolder_spec_witness :
  let fs : @FS sample_platform := [py "./out"; py "./out-1"; py "./out-2"] in
  @unique_subfolder sample_platform 3 fs (py ".") (py "new") = Some (py "./new") /\
  @unique_subfolder sample_platform 3 fs (py ".") (py "out") = Some (py "./out-3") /\
  @path_exists sample_platform fs (py "./out-3") = false /\
  @unique_subfolder sample_platform 1 [py "./out"] (py ".") (py "out") = Some (py "./out-1") /\
  @unique_subfolder sample_platform 2 [py "./out"; py "./out-1"] (py ".") (py "out")
  = Some (py "./out-2").
Proof.
  intros fs. split; [|split; [|split; [|split]]].
  - apply (proj1 (@unique_subfolder_spec sample_platform fs (py ".") (py "new"))). reflexivity.
  - apply (proj1 (proj2 (@unique_subfolder_spec sample_platform fs (py ".") (py "out"))) 3 3);
      [reflexivity | lia | lia | | reflexivity].
    intros j Hj. assert (j = 1 \/ j = 2) as [-> | ->] by lia; reflexivity.
  - apply (proj1 (proj2 (proj2 (@unique_subfolder_spec sample_platform fs (py ".") (py "out"))))
             3).
    reflexivity.
  - apply (proj1 (proj2 (proj2 (proj2
             (@unique_subfolder_spec sample_platform [py "./out"] (py ".") (py "out"))))) 1);
      [reflexivity | reflexivity | lia].
  - apply (proj1 (proj2 (proj2 (proj2 (proj2
             (@unique_subfolder_spec sample_platform [py "./out"; py "./out-1"]
                (py ".") (py "out")))))) 2);
      [reflexivity | reflexivity | reflexivity | lia].
Defined.

(** ** Runs of the program *)

Section Runs.

Context {platform : Platform}.

Lemma read_lines_run (pasted lines : list str) (w : world) :
  read_lines pasted lines w
  = (Returned (lines ++ map (fun line => line ++ [nl]) pasted),
     {| fs := fs w; trace := trace w ++ map Typed pasted ++ [Interrupted] |}).
Proof.
  revert lines w. induction pasted as [|line more IH]; intros lines w.
  - cbn. by rewrite app_nil_r.
  - cbn [read_lines]. unfold bind at 1. cbn. rewrite IH. cbn.
    by rewrite <- !(assoc_L app).
Qed.

Lemma capture_run (pasted : list str) (w : world) :
  capture_lines_until_ctrl_c pasted w
  = (Returned (pasted_text pasted),
     {| fs := fs w;
        trace := trace w
          ++ [Printed ([nl] ++ py "Paste ALL problems now. Press Ctrl-C when finished." ++ [nl])]
          ++ map Typed pasted ++ [Interrupted] |}).
Proof.
  unfold capture_lines_until_ctrl_c, bind, print, emit. rewrite read_lines_run. cbn.
  by rewrite <- !(assoc_L app).
Qed.

Lemma save_blocks_run (base : str) (folder : Path) (i : nat) (blocks : list str) (w : world) :
  save_blocks base folder i blocks w
  = (Returned tt,
     {| fs := fs_of_save base folder i blocks (fs w);
        trace := trace w ++ events_of_save base folder i blocks |}).
Proof.
  revert i w. induction blocks as [|block more IH]; intros i w.
  - cbn. rewrite app_nil_r. by destruct w.
  - cbn [save_blocks]. unfold bind, write_file, print, emit. rewrite IH. cbn.
    by rewrite <- !(assoc_L app).
Qed.

Lemma main_run (fuel : nat) (typed : str) (pasted : list str) (w : world) :
  main fuel typed pasted w
  = match unique_subfolder fuel (fs w) cwd (py "pg-folders/" ++ base_name typed) with
    | None =>
        (Unfinished,
         {| fs := fs w;
            trace := trace w
              ++ [Prompted (py "Enter base filename (default: webwork-problems): ");
                  Typed typed] |})
    | Some folder =>
        let fs1 := mkdir_parents (fs w) folder in
        let trace1 := trace w ++ events_to_capture typed pasted folder in
        match verdict_of (pasted_text pasted) with
        | NoInput =>
            (Returned tt,
             {| fs := fs1;
                trace := trace1 ++ [Printed (py "No input detected. Nothing to do.")] |})
        | NoBlocks =>
            (Exited 1,
             {| fs := fs1;
                trace := trace1
                  ++ [Printed (py "No 'DOCUMENT(); ... ENDDOCUMENT();' blocks found. Aborting.")] |})
        | Blocks blocks =>
            let fs2 := fs_of_save (base_name typed) folder 1 blocks fs1 in
            let trace2 := trace1 ++ events_of_save (base_name typed) folder 1 blocks in
            match unique_zip_path fuel fs2 cwd (base_name typed) with
            | None => (Unfinished, {| fs := fs2; trace := trace2 |})
            | Some zip_path =>
                (Returned tt,
                 {| fs := make_archive fs2 folder zip_path;
                    trace := trace2
                      ++ [Archived folder zip_path;
                          Printed ([nl] ++ py "Created zip: " ++ [dq] ++ path_str zip_path ++ [dq]);
                          Printed (py "Done.")] |})
            end
        end
    end.
Proof.
  unfold main, input, input_line, search, mkdir, print, emit, ret, sys_exit.
  unfold bind at 1 2 3 4. cbn [fs trace].
  fold (base_name typed).
  destruct (unique_subfolder fuel _ _ _) as [folder|]; [|by rewrite <- !(assoc_L app)].
  unfold bind at 1 2 3 4. rewrite capture_run. cbn [fs trace].
  unfold verdict_of, events_to_capture.
  destruct (strip (pasted_text pasted)) as [|c rest].
  { unfold bind. cbn [fs trace]. by rewrite <- !(assoc_L app). }
  destruct (extract_pg_blocks_tokenized (pasted_text pasted)) as [|block blocks].
  { unfold bind. cbn [fs trace]. by rewrite <- !(assoc_L app). }
  unfold bind at 1 2 3 4. rewrite save_blocks_run. cbn [fs trace].
  unfold archive. rewrite <- !(assoc_L app). cbn [app].
  destruct (unique_zip_path fuel _ _ _) as [zip_path|].
  - unfold bind. cbn [fs trace]. by rewrite <- !(assoc_L app).
  - done.
Qed.

Lemma verdict_of_spec (big_text : str) :
  match verdict_of big_text with
  | NoInput => Forall (fun c => isspace c = true) big_text
  | NoBlocks =>
      ~ Forall (fun c => isspace c = true) big_text /\
      extract_pg_blocks_tokenized big_text = []
  | Blocks blocks =>
      ~ Forall (fun c => isspace c = true) big_text /\
      extract_pg_blocks_tokenized big_text = blocks /\ blocks <> []
  end.
Proof.
  unfold verdict_of. pose proof (strip_blank big_text) as Hblank.
  destruct (strip big_text); [by apply Hblank|].
  assert (~ Forall (fun c => isspace c = true) big_text) by (by intros ?%Hblank).
  destruct (extract_pg_blocks_tokenized big_text); by repeat split.
Qed.

(** C10: the folder is created before the capture begins; the run then reads
    the paste.  When the captured text is blank (status zero) or holds no
    block (status one) the run ends there: the file system is the initial one
    with the new folder, and the run has written no file and made no
    archive. *)
Theorem main_early_exit (fuel : nat) (typed : str) (pasted : list str) (w : world)
    (folder : Path) :
  let run := main fuel typed pasted w in
  let big_text := pasted_text pasted in
  let blank := Forall (fun c => isspace c = true) big_text in
  let to_capture :=
    [ Prompted (py "Enter base filename (default: webwork-problems): ");
      Typed typed;
      MadeDir folder;
      Printed ([nl; nl] ++ py "Created folder: " ++ [dq]
                 ++ (py "pg-folders/" ++ base_name typed) ++ [dq] ++ [nl]);
      Printed ([nl] ++ py "Paste ALL problems now. Press Ctrl-C when finished." ++ [nl]) ]
    ++ map Typed pasted
    ++ [ Interrupted;
         Printed ([nl; nl] ++ py "Ctrl-C Pressed. Processing zip-files..." ++ [nl]) ] in
  unique_subfolder fuel (fs w) cwd (py "pg-folders/" ++ base_name typed) = Some folder ->
  path_exists (fs w) folder = false /\
  (exists rest, trace run.2 = trace w ++ to_capture ++ rest) /\
  (blank ->
   run = (Returned tt,
          {| fs := mkdir_parents (fs w) folder;
             trace := trace w ++ to_capture
               ++ [Printed (py "No input detected. Nothing to do.")] |})) /\
  (~ blank -> extract_pg_blocks_tokenized big_text = [] ->
   run = (Exited 1,
          {| fs := mkdir_parents (fs w) folder;
             trace := trace w ++ to_capture
               ++ [Printed (py "No 'DOCUMENT(); ... ENDDOCUMENT();' blocks found. Aborting.")] |})).
Proof.
  intros run big_text blank to_capture Hfolder. subst run. rewrite main_run, Hfolder.
  change to_capture with (events_to_capture typed pasted folder).
  pose proof (verdict_of_spec big_text) as Hverdict. fold blank in Hverdict.
  cbn zeta. fold big_text.
  split; [by eapply unique_subfolder_absent|].
  destruct (verdict_of big_text) as [| |blocks].
  - split; [|split].
    + cbn [snd trace]. rewrite <- (assoc_L app). by eexists.
    + intros _. by rewrite <- (assoc_L app).
    + intros ?. done.
  - destruct Hverdict as [Hblank Hnone]. split; [|split].
    + cbn [snd trace]. rewrite <- (assoc_L app). by eexists.
    + intros ?. done.
    + intros _ _. by rewrite <- (assoc_L app).
  - destruct Hverdict as (Hblank & Hblocks & Hsome). split; [|split].
    + destruct (unique_zip_path fuel _ _ _); cbn [snd trace];
        rewrite <- !(assoc_L app); by eexists.
    + intros ?. done.
    + intros _ Hnone. congruence.
Qed.

End Runs.

Lemma main_early_exit_witness :
  let w := @World sample_platform [] [] in
  @unique_subfolder sample_platform 1 [] (py ".") (py "pg-folders/" ++ base_name (py "hw"))
  = Some (py "./pg-folders/hw") /\
  @path_exists sample_platform [] (py "./pg-folders/hw") = false /\
  (@main sample_platform 1 (py "hw") [py "  "] w).1 = Returned tt /\
  fs (@main sample_platform 1 (py "hw") [py "  "] w).2 = [py "./pg-folders/hw"].
Proof.
  intros w.
  pose proof (@main_early_exit sample_platform 1 (py "hw") [py "  "] w (py "./pg-folders/hw")
                eq_refl) as (Hnew & _ & Hblank & _).
  assert (Forall (fun c => isspace c = true) (pasted_text [py "  "])) as Hws.
  { apply (bool_decide_unpack _). by vm_compute. }
  apply Hblank in Hws. rewrite Hws.
  split; [reflexivity|]. split; [exact Hnew|]. split; reflexivity.
Defined.

(** * More of the program *)

(** ** Numbered names *)

Lemma py_inj (x y : String.string) : py x = py y -> x = y.
Proof.
  unfold py. intros H.
  rewrite <- (String.string_of_list_ascii_of_string x),
          <- (String.string_of_list_ascii_of_string y).
  f_equal. revert H.
  generalize (String.list_ascii_of_string x) (String.list_ascii_of_string y).
  induction l as [|a l IH]; intros [|b l'] H; try done.
  cbn [map] in H. injection H as Hab Hl. f_equal; [|by apply IH].
  by rewrite <- (ascii_N_embedding a), <- (ascii_N_embedding b), Hab.
Qed.

Lemma to_uint_nonnil (k : nat) : Nat.to_uint k <> Decimal.Nil.
Proof.
  intros H. assert (k = 0) as -> by (by rewrite <- (DecimalNat.Unsigned.of_to k), H).
  discriminate.
Qed.

Lemma str_of_int_inj (j k : nat) : str_of_int j = str_of_int k -> j = k.
Proof.
  unfold str_of_int. intros H%py_inj.
  apply DecimalNat.Unsigned.to_uint_inj.
  pose proof (NilZero.usu _ (to_uint_nonnil j)) as Hj.
  pose proof (NilZero.usu _ (to_uint_nonnil k)) as Hk.
  rewrite H in Hj. congruence.
Qed.

(** X1: the names that the script numbers are different for different
    numbers: the files [<base>-<i>.pg] of two blocks, and the folder names
    [<base>-<k>] and archive names [<base>-<k>.zip] that the allocators
    probe. *)
Theorem numbered_names_distinct (base : str) (i j : nat) :
  (base ++ py "-" ++ str_of_int i ++ py ".pg" = base ++ py "-" ++ str_of_int j ++ py ".pg"
   -> i = j) /\
  (base ++ py "-" ++ str_of_int i = base ++ py "-" ++ str_of_int j -> i = j) /\
  (base ++ py "-" ++ str_of_int i ++ py ".zip" = base ++ py "-" ++ str_of_int j ++ py ".zip"
   -> i = j).
Proof.
  repeat split; intros H; apply app_inv_head, app_inv_head in H.
  - by apply app_inv_tail, str_of_int_inj in H.
  - by apply str_of_int_inj.
  - by apply app_inv_tail, str_of_int_inj in H.
Qed.

Lemma numbered_names_distinct_witness :
  py "hw" ++ py "-" ++ str_of_int 3 ++ py ".pg" = py "hw" ++ py "-" ++ str_of_int 3 ++ py ".pg" /\
  3 = 3.
Proof.
  split; [reflexivity|].
  apply (proj1 (numbered_names_distinct (py "hw") 3 3)). reflexivity.
Defined.

(** ** The archive allocator, and when the allocators return *)

Section ZipAllocation.

Context {platform : Platform}.

Local Abbreviation zip_candidate root base k :=
  (joinpath root (base ++ py "-" ++ str_of_int k ++ py ".zip")).

Local Abbreviation folder_candidate root base k :=
  (joinpath root (base ++ py "-" ++ str_of_int k)).

Lemma zip_path_loop_first_absent (fuel : nat) (fs : FS) (root : Path) (base : str) (k0 k : nat) :
  k0 <= k -> k - k0 < fuel ->
  (forall j, k0 <= j < k -> path_exists fs (zip_candidate root base j) = true) ->
  path_exists fs (zip_candidate root base k) = false ->
  zip_path_loop fuel fs root base k0 = Some (zip_candidate root base k).
Proof.
  revert k0. induction fuel as [|fuel IH]; intros k0 Hle Hfuel Hbelow Habsent; [lia|].
  cbn [zip_path_loop]. destruct (decide (k0 = k)) as [->|Hne].
  - by rewrite Habsent.
  - rewrite Hbelow by lia. cbn [negb]. apply IH; [lia..| |done].
    intros j Hj. apply Hbelow. lia.
Qed.

Lemma zip_path_loop_absent (fuel : nat) (fs : FS) (root : Path) (base : str) (k0 : nat) (p : Path) :
  zip_path_loop fuel fs root base k0 = Some p -> path_exists fs p = false.
Proof.
  revert k0. induction fuel as [|fuel IH]; intros k0; [done|].
  cbn [zip_path_loop].
  destruct (path_exists fs (zip_candidate root base k0)) eqn:Hk; cbn [negb].
  - apply IH.
  - by intros [= <-].
Qed.

(** A loop that has not returned has found every path it probed. *)
Lemma zip_path_loop_none (fuel : nat) (fs : FS) (root : Path) (base : str) (k0 : nat) :
  zip_path_loop fuel fs root base k0 = None ->
  forall j, k0 <= j < k0 + fuel -> path_exists fs (zip_candidate root base j) = true.
Proof.
  revert k0. induction fuel as [|fuel IH]; intros k0 Hnone j Hj; [lia|].
  cbn [zip_path_loop] in Hnone.
  destruct (path_exists fs (zip_candidate root base k0)) eqn:Hk; cbn [negb] in Hnone; [|done].
  destruct (decide (j = k0)) as [->|Hne]; [done|].
  apply (IH (k0 + 1)); [done|lia].
Qed.

Lemma subfolder_loop_none (fuel : nat) (fs : FS) (root : Path) (base : str) (k0 : nat) :
  subfolder_loop fuel fs root base k0 = None ->
  forall j, k0 <= j < k0 + fuel -> path_exists fs (folder_candidate root base j) = true.
Proof.
  revert k0. induction fuel as [|fuel IH]; intros k0 Hnone j Hj; [lia|].
  cbn [subfolder_loop] in Hnone.
  destruct (path_exists fs (folder_candidate root base k0)) eqn:Hk; cbn [negb] in Hnone; [|done].
  destruct (decide (j = k0)) as [->|Hne]; [done|].
  apply (IH (k0 + 1)); [done|lia].
Qed.

(** X2: the archive allocator returns [root/base.zip] when that path is
    absent, and otherwise [root/base-k.zip] for the smallest [k >= 1] whose
    path is absent, once the loop is run for [k] iterations; the path it
    returns does not exist. *)
Theorem unique_zip_path_spec (fs : FS) (root : Path) (base : str) :
  (path_exists fs (joinpath root (base ++ py ".zip")) = false ->
   forall fuel, unique_zip_path fuel fs root base = Some (joinpath root (base ++ py ".zip"))) /\
  (forall k fuel,
     path_exists fs (joinpath root (base ++ py ".zip")) = true ->
     1 <= k -> k <= fuel ->
     (forall j, 1 <= j < k -> path_exists fs (zip_candidate root base j) = true) ->
     path_exists fs (zip_candidate root base k) = false ->
     unique_zip_path fuel fs root base = Some (zip_candidate root base k)) /\
  (forall fuel p, unique_zip_path fuel fs root base = Some p -> path_exists fs p = false).
Proof.
  split; [|split].
  - intros Hbase fuel. unfold unique_zip_path. by rewrite Hbase.
  - intros k fuel Hbase Hk Hfuel Hbelow Habsent. unfold unique_zip_path.
    rewrite Hbase. cbn [negb]. apply zip_path_loop_first_absent; [lia..|done|done].
  - intros fuel p. unfold unique_zip_path.
    destruct (path_exists fs (joinpath root (base ++ py ".zip"))) eqn:Hbase; cbn [negb].
    + apply zip_path_loop_absent.
    + by intros [= <-].
Qed.

(** Among more numbered paths than there are paths at all, one is absent. *)
Lemma numbered_path_absent (fs : FS) (existing : list Path) (candidate : nat -> Path) :
  (forall p, path_exists fs p = true -> p ∈ existing) ->
  (forall j k, candidate j = candidate k -> j = k) ->
  ~ (forall j, 1 <= j < 1 + S (length existing) -> path_exists fs (candidate j) = true).
Proof.
  intros Hexisting Hinj Hall.
  assert (Inj (=) (=) candidate) as Hinj' by (intros j k; apply Hinj).
  pose proof (NoDup_fmap_2 candidate _ (NoDup_seq 1 (S (length existing)))) as Hnodup.
  assert (length (candidate <$> seq 1 (S (length existing))) <= length existing) as Hlen.
  { apply submseteq_length, NoDup_submseteq; [done|].
    intros p (j & -> & Hj%elem_of_seq)%list_elem_of_fmap.
    apply Hexisting, Hall. lia. }
  rewrite length_fmap, length_seq in Hlen. lia.
Qed.

(** X3: on a file system with finitely many paths, where the numbered
    candidates are different paths, both allocators return, within one
    iteration more than there are paths. *)
Theorem allocators_return (fs : FS) (root : Path) (base : str) (existing : list Path) :
  (forall p, path_exists fs p = true -> p ∈ existing) ->
  ((forall j k, folder_candidate root base j = folder_candidate root base k -> j = k) ->
   exists p, unique_subfolder (S (length existing)) fs root base = Some p) /\
  ((forall j k, zip_candidate root base j = zip_candidate root base k -> j = k) ->
   exists p, unique_zip_path (S (length existing)) fs root base = Some p).
Proof.
  intros Hexisting. split; intros Hinj.
  - unfold unique_subfolder. destruct (negb _); [by eexists|].
    destruct (subfolder_loop _ _ _ _ _) as [p|] eqn:Hloop; [by eexists|].
    destruct (numbered_path_absent fs existing _ Hexisting Hinj).
    by apply subfolder_loop_none.
  - unfold unique_zip_path. destruct (negb _); [by eexists|].
    destruct (zip_path_loop _ _ _ _ _) as [p|] eqn:Hloop; [by eexists|].
    destruct (numbered_path_absent fs existing _ Hexisting Hinj).
    by apply zip_path_loop_none.
Qed.

End ZipAllocation.

Lemma unique_zip_path_spec_witness :
  let fs : @FS sample_platform := [py "./hw.zip"; py "./hw-1.zip"] in
  @unique_zip_path sample_platform 2 fs (py ".") (py "new") = Some (py "./new.zip") /\
  @unique_zip_path sample_platform 2 fs (py ".") (py "hw") = Some (py "./hw-2.zip") /\
  @path_exists sample_platform fs (py "./hw-2.zip") = false.
Proof.
  intros fs. split; [|split].
  - apply (proj1 (@unique_zip_path_spec sample_platform fs (py ".") (py "new"))). reflexivity.
  - apply (proj1 (proj2 (@unique_zip_path_spec sample_platform fs (py ".") (py "hw"))) 2 2);
      [reflexivity | lia | lia | | reflexivity].
    intros j Hj. by replace j with 1 by lia.
  - apply (proj2 (proj2 (@unique_zip_path_spec sample_platform fs (py ".") (py "hw"))) 2).
    reflexivity.
Defined.

Lemma allocators_return_witness :
  let fs : @FS sample_platform := [py "./hw"; py "./hw-1"] in
  (exists p, @unique_subfolder sample_platform 3 fs (py ".") (py "hw") = Some p) /\
  (exists p, @unique_zip_path sample_platform 3 fs (py ".") (py "hw") = Some p).
Proof.
  intros fs.
  assert (forall p, @path_exists sample_platform fs p = true -> p ∈ fs) as Hfs.
  { intros p Hp. by apply bool_decide_eq_true in Hp. }
  destruct (@allocators_return sample_platform fs (py ".") (py "hw") fs Hfs) as [Hfolder Hzip].
  split.
  - apply Hfolder. intros j k H. cbn in H.
    by apply app_inv_head, app_inv_head, app_inv_head, app_inv_head, str_of_int_inj in H.
  - apply Hzip. intros j k H. cbn in H.
    by apply app_inv_head, app_inv_head, app_inv_head, app_inv_head, app_inv_tail,
      str_of_int_inj in H.
Defined.

(** ** What every block looks like *)

Lemma occurs_split (s sub : str) (p : nat) :
  sub <> [] ->
  occurs s sub p = true ->
  exists rest, s = take p s ++ sub ++ rest /\ length (take p s) = p.
Proof.
  unfold occurs. intros Hsub [rest Hrest]%startswith_spec. exists rest. split.
  - by rewrite <- Hrest, take_drop.
  - apply length_take_le.
    destruct (decide (p <= length s)) as [|Hgt]; [done|].
    rewrite drop_ge in Hrest by lia. by destruct sub.
Qed.

Lemma occurs_contains (s sub : str) (p : nat) :
  occurs s sub p = true -> contains s sub = true.
Proof.
  unfold occurs. revert p. induction s as [|c s IH]; intros p H.
  - rewrite drop_nil in H. cbn [contains]. by rewrite H.
  - destruct p as [|p].
    + change (startswith (c :: s) sub = true) in H. cbn [contains]. by rewrite H.
    + cbn [contains]. rewrite (IH p) by exact H. apply orb_true_r.
Qed.

(** The tokens that open and close a block are two tokens of the text, in
    this order. *)
Lemma block_tokens_lookup (tokens before inside after : list (nat * str)) (start pos : nat) :
  block_tokens tokens before inside after start pos ->
  exists i j, i < j /\
    tokens !! i = Some (start, DOCUMENT) /\ tokens !! j = Some (pos, ENDDOCUMENT).
Proof.
  intros (-> & Hhead & Hlast).
  destruct inside as [|tk inside]; [done|]. cbn in Hhead. injection Hhead as ->.
  destruct inside as [|tk' inside]; [by injection Hlast|].
  exists (length before), (length before + S (length inside)). split; [lia|]. split.
  - by rewrite lookup_app_r, Nat.sub_diag by lia.
  - rewrite lookup_app_r by lia. rewrite lookup_app_l by (cbn [length]; lia).
    rewrite last_lookup in Hlast. cbn [length pred] in Hlast.
    by replace (length before + S (length inside) - length before) with (S (length inside))
      by lia.
Qed.

(** X4: every block of every text is a piece of the text: it starts with a
    begin marker, runs through an end marker to the end of the line of that
    end marker, and ends with one newline. *)
Theorem block_shape (s block : str) :
  block ∈ extract_pg_blocks_tokenized s ->
  exists pre body tail,
    s = pre ++ DOCUMENT ++ body ++ ENDDOCUMENT ++ tail /\
    block = DOCUMENT ++ body ++ ENDDOCUMENT ++ rest_of_line tail ++ [nl].
Proof.
  rewrite extract_run. intros Hblock.
  destruct (loop_invariant_run s (finditer s) (finditer_tokens s)) as [Hblocks _ _].
  destruct (Hblocks block Hblock)
    as (before & inside & after & start & pos & Htokens & _ & ->).
  destruct (block_tokens_lookup _ _ _ _ _ _ Htokens) as (i & j & Hij & Hi & Hj).
  pose proof (finditer_ordered 0 s i j start pos _ _ Hij Hi Hj) as Horder.
  change (length DOCUMENT) with 11 in Horder.
  apply list_elem_of_lookup_2, finditer_sound in Hi as (_ & _ & Hbegin).
  apply list_elem_of_lookup_2, finditer_sound in Hj as (_ & _ & Hend).
  rewrite Nat.sub_0_r in Hbegin, Hend.
  assert (ENDDOCUMENT <> [] /\ DOCUMENT <> []) as [Hne1 Hne2] by (by split).
  destruct (occurs_split s ENDDOCUMENT pos Hne1 Hend) as (tail & Hs & Hpos).
  destruct (occurs_split s DOCUMENT start Hne2 Hbegin) as (k & Hk & Hstart).
  (* the text between the two markers *)
  assert (drop start (take pos s) = DOCUMENT ++ take (pos - start - 11) k) as Hmid.
  { replace pos with (start + (pos - start)) at 1 by lia.
    rewrite <- take_drop_commute.
    assert (drop start s = DOCUMENT ++ k) as ->.
    { rewrite Hk at 1. rewrite drop_app_length'; [done|]. by rewrite Hstart. }
    set (n := pos - start - 11).
    replace (pos - start) with (length DOCUMENT + n)
      by (change (length DOCUMENT) with 11; lia).
    by rewrite take_app_add. }
  exists (take start (take pos s)), (take (pos - start - 11) k), tail. split.
  - rewrite Hs at 1. rewrite <- (take_drop start (take pos s)) at 1.
    rewrite Hmid. by rewrite <- !(assoc_L app).
  - rewrite (close_block_at s (take start (take pos s))
               (DOCUMENT ++ take (pos - start - 11) k) tail).
    + by rewrite <- !(assoc_L app).
    + rewrite Hs at 1. rewrite <- (take_drop start (take pos s)) at 1.
      rewrite Hmid. by rewrite <- !(assoc_L app).
    + rewrite length_take, Hpos. lia.
    + rewrite <- Hmid, length_take, length_drop, Hpos. lia.
Qed.

Lemma block_shape_witness :
  exists pre body tail,
    py "x" ++ DOCUMENT ++ py "y" ++ ENDDOCUMENT ++ py " % z"
    = pre ++ DOCUMENT ++ body ++ ENDDOCUMENT ++ tail /\
    DOCUMENT ++ py "y" ++ ENDDOCUMENT ++ py " % z" ++ [nl]
    = DOCUMENT ++ body ++ ENDDOCUMENT ++ rest_of_line tail ++ [nl].
Proof.
  apply (block_shape (py "x" ++ DOCUMENT ++ py "y" ++ ENDDOCUMENT ++ py " % z")).
  vm_compute. apply list_elem_of_here.
Defined.

(** ** How many blocks *)

Lemma count_tokens_cons (tok tok' : str) (pos : nat) (tokens : list (nat * str)) :
  count_tokens tok ((pos, tok') :: tokens)
  = (if bool_decide (tok' = tok) then 1 else 0) + count_tokens tok tokens.
Proof.
  unfold count_tokens. rewrite filter_cons. cbn [snd].
  case_bool_decide; by rewrite ?decide_True, ?decide_False by done.
Qed.

(** The blocks and the open block are paid for by begin markers, the blocks
    by end markers. *)
Lemma run_tokens_count (s : str) (st : loop_state) (tokens : list (nat * str)) :
  Forall (fun tk => tk.2 = DOCUMENT \/ tk.2 = ENDDOCUMENT) tokens ->
  let st' := run_tokens s st tokens in
  length (blocks st') + (if 0 <? level st' then 1 else 0)
    <= length (blocks st) + (if 0 <? level st then 1 else 0) + count_tokens DOCUMENT tokens /\
  length (blocks st') <= length (blocks st) + count_tokens ENDDOCUMENT tokens.
Proof.
  revert st. induction tokens as [|[pos tok] tokens IH]; intros st Htokens.
  { cbn. unfold count_tokens. cbn. lia. }
  apply Forall_cons in Htokens as [Htok Htokens]. cbn [snd] in Htok.
  cbn zeta. rewrite run_tokens_cons, !count_tokens_cons.
  destruct (IH (loop_body s st (pos, tok)) Htokens) as [Hbegin Hend].
  cbn zeta in Hbegin, Hend. destruct Htok as [-> | ->].
  - rewrite loop_body_begin in *. cbn [blocks level] in *.
    rewrite bool_decide_eq_true_2 by done.
    rewrite bool_decide_eq_false_2 by done.
    replace (0 <? level st + 1) with true in Hbegin by (symmetry; apply Nat.ltb_lt; lia).
    destruct (0 <? level st); lia.
  - rewrite loop_body_end in *.
    rewrite bool_decide_eq_false_2 by done.
    rewrite bool_decide_eq_true_2 by done.
    destruct (0 <? level st) eqn:Hlt; [|rewrite ?Hlt in *; lia].
    apply Nat.ltb_lt in Hlt.
    destruct (level st - 1 =? 0) eqn:Hone, (current_start st) as [start|];
      cbn [blocks level] in *; rewrite ?length_app in *; cbn [length] in *;
      rewrite ?Hone in *;
      (apply Nat.eqb_eq in Hone || apply Nat.eqb_neq in Hone);
      destruct (0 <? level st - 1) eqn:Hlt'; try lia;
      (apply Nat.ltb_lt in Hlt' || apply Nat.ltb_ge in Hlt'); lia.
Qed.

(** X5: the extractor never returns more blocks than the text has begin
    markers, nor more than it has end markers. *)
Theorem blocks_at_most_markers (s : str) :
  length (extract_pg_blocks_tokenized s) <= count_tokens DOCUMENT (finditer s) /\
  length (extract_pg_blocks_tokenized s) <= count_tokens ENDDOCUMENT (finditer s).
Proof.
  rewrite extract_run.
  destruct (run_tokens_count s loop_init (finditer s) (finditer_tokens s)) as [Hbegin Hend].
  cbn in Hbegin, Hend. split; lia.
Qed.

Lemma whitespace_plain (s : str) :
  Forall (fun c => isspace c = true) s -> plain s = true.
Proof.
  unfold plain. induction s as [|c s IH]; intros Hs; [done|].
  apply Forall_cons in Hs as [Hc Hs]. cbn [contains].
  rewrite negb_orb, IH, andb_true_r by done.
  apply negb_true_iff, not_true_is_false. intros [k Hk]%startswith_spec.
  injection Hk as -> _. done.
Qed.

(** X6: a text without an end marker gives no block, whatever begin markers
    it has; so does a text of whitespace only, and the empty text. *)
Theorem no_end_marker_no_block (s : str) :
  (contains s ENDDOCUMENT = false -> extract_pg_blocks_tokenized s = []) /\
  (Forall (fun c => isspace c = true) s -> extract_pg_blocks_tokenized s = []).
Proof.
  split.
  - intros Hnone. rewrite extract_run. rewrite (run_begins s loop_init); [done|].
    apply Forall_forall. intros [pos tok] Htok. cbn [snd].
    apply finditer_sound in Htok as ([-> | ->] & _ & Hocc); [done|].
    apply occurs_contains in Hocc. congruence.
  - intros Hs. rewrite extract_run. unfold finditer.
    by rewrite finditer_plain by (by apply whitespace_plain).
Qed.

Lemma no_end_marker_no_block_witness :
  contains (DOCUMENT ++ py " x " ++ DOCUMENT) ENDDOCUMENT = false /\
  extract_pg_blocks_tokenized (DOCUMENT ++ py " x " ++ DOCUMENT) = [] /\
  extract_pg_blocks_tokenized (py "  " ++ [nl]) = [].
Proof.
  split; [reflexivity|]. split.
  - apply (proj1 (no_end_marker_no_block (DOCUMENT ++ py " x " ++ DOCUMENT))). reflexivity.
  - apply (proj2 (no_end_marker_no_block (py "  " ++ [nl]))).
    apply (bool_decide_unpack _). by vm_compute.
Defined.

(** ** Newlines of the captured text *)

Lemma replace_crlf_match (rest new : str) :
  replace (cr :: nl :: rest) [cr; nl] new = new ++ replace rest [cr; nl] new.
Proof. reflexivity. Qed.

Lemma replace_crlf_other (c : N) (rest new : str) :
  startswith (c :: rest) [cr; nl] = false ->
  replace (c :: rest) [cr; nl] new = c :: replace rest [cr; nl] new.
Proof.
  intros H. unfold replace. cbn [replace_from]. by rewrite H.
Qed.

Lemma replace_crlf_absent (s new : str) :
  cr ∉ s -> replace s [cr; nl] new = s.
Proof.
  induction s as [|c s IH]; intros Hs; [done|].
  apply not_elem_of_cons in Hs as [Hc Hs].
  rewrite replace_crlf_other, IH; [done..|].
  cbn [startswith]. by destruct (N.eqb_spec c cr) as [->|].
Qed.

(** X7: the captured text holds no carriage return. *)
Theorem joined_text_no_carriage_return (lines : list str) : cr ∉ joined_text lines.
Proof.
  unfold joined_text. intros [H | [_ H]]%elem_of_replace_char; [discriminate | done].
Qed.

(** X8: the two replacements of line 74 are one pass over the text that
    turns each carriage return, together with the newline that follows it if
    there is one, into one newline, and keeps every other character. *)
Theorem joined_text_one_pass (lines : list str) :
  joined_text lines = normalize_newlines (concat lines).
Proof.
  unfold joined_text. generalize (concat lines). clear lines. intros s.
  remember (length s) as n eqn:Hn. revert s Hn.
  induction n as [n IH] using lt_wf_ind. intros s ->.
  destruct s as [|c rest]; [done|].
  cbn [normalize_newlines]. destruct (N.eqb_spec c cr) as [->|Hc].
  - destruct rest as [|d rest'].
    + reflexivity.
    + destruct (N.eqb_spec d nl) as [->|Hd].
      * rewrite replace_crlf_match. cbn [app].
        rewrite replace_char_cons. cbn [N.eqb nl cr Pos.eqb].
        f_equal. eapply IH; [|done]. cbn [length]. lia.
      * rewrite replace_crlf_other.
        2:{ cbn [startswith]. apply N.eqb_neq in Hd as ->. by rewrite N.eqb_refl. }
        rewrite replace_char_cons, N.eqb_refl. cbn [app].
        f_equal. eapply IH; [|done]. cbn [length]. lia.
  - rewrite replace_crlf_other by (cbn [startswith]; by apply N.eqb_neq in Hc as ->).
    rewrite replace_char_cons. apply N.eqb_neq in Hc as ->.
    f_equal. eapply IH; [|done]. cbn [length]. lia.
Qed.

(** X9: a paste without carriage returns is captured as it is: each line,
    then a newline. *)
Theorem pasted_text_intact (pasted : list str) :
  Forall (fun line => cr ∉ line) pasted ->
  pasted_text pasted = concat (map (fun line => line ++ [nl]) pasted).
Proof.
  intros Hpasted. unfold pasted_text, joined_text.
  assert (cr ∉ concat (map (fun line => line ++ [nl]) pasted)) as Hcr.
  { induction Hpasted as [|line pasted Hline _ IH]; [by intros ?%elem_of_nil|].
    cbn [map concat]. rewrite !elem_of_app, list_elem_of_singleton.
    intros [[?|?]|?]; done. }
  by rewrite replace_crlf_absent, replace_char_absent.
Qed.

Lemma pasted_text_intact_witness :
  Forall (fun line => cr ∉ line) [py "DOCUMENT();"; py "x"] /\
  pasted_text [py "DOCUMENT();"; py "x"]
  = concat (map (fun line => line ++ [nl]) [py "DOCUMENT();"; py "x"]).
Proof.
  assert (Forall (fun line => cr ∉ line) [py "DOCUMENT();"; py "x"]) as H.
  { apply (bool_decide_unpack _). by vm_compute. }
  split; [exact H|]. apply (pasted_text_intact _ H).
Defined.

(** ** Names that are already safe *)

Lemma strip_with_id (drop : N -> bool) (s : str) :
  (forall c, head s = Some c \/ last s = Some c -> drop c = false) ->
  strip_with drop s = s.
Proof.
  intros Hends. unfold strip_with, rstrip_with.
  assert (forall x : str, (forall c, head x = Some c -> drop c = false) ->
                          lstrip_with drop x = x) as Hl.
  { intros [|c x] Hx; [done|]. cbn [lstrip_with]. by rewrite (Hx c). }
  rewrite (Hl s) by (intros c Hc; apply Hends; by left).
  rewrite Hl; [apply reverse_involutive|].
  intros c Hc. rewrite head_reverse in Hc. apply Hends. by right.
Qed.

Lemma strip_with_idemp (drop : N -> bool) (s : str) :
  strip_with drop (strip_with drop s) = strip_with drop s.
Proof. apply strip_with_id. apply strip_with_ends. Qed.

Lemma filter_all (P : N -> Prop) `{!forall c, Decision (P c)} (s : str) :
  Forall P s -> filter P s = s.
Proof.
  induction 1 as [|c s Hc _ IH]; [done|]. by rewrite filter_cons_True, IH.
Qed.

Lemma split_from_one_word (word s : str) :
  Forall (fun c => isspace c = false) s ->
  word ++ s <> [] ->
  split_from word s = [word ++ s].
Proof.
  intros Hs. revert word. induction Hs as [|c s Hc _ IH]; intros word Hne.
  - rewrite app_nil_r in *. by destruct word.
  - cbn [split_from]. rewrite Hc, IH; rewrite <- (assoc_L app); [done|].
    by destruct word.
Qed.

Lemma safe_char (c : N) :
  c ∈ ascii_letters ++ digits ++ py "_.-" ->
  isspace c = false /\ c <> 32%N /\ c ∈ ALLOWED_CHARS.
Proof.
  intros Hc. split; [|split].
  - assert (forallb (fun c => negb (isspace c)) (ascii_letters ++ digits ++ py "_.-") = true)
      as H by (vm_compute; reflexivity).
    rewrite forallb_forall in H. apply list_elem_of_In, H in Hc.
    by apply negb_true_iff in Hc.
  - intros ->. revert Hc. apply (bool_decide_unpack _). by vm_compute.
  - apply ALLOWED_CHARS_spec. by right.
Qed.

Lemma sanitize_safe_name (name : str) :
  safe_name name -> sanitize_basename name = name.
Proof.
  intros (Hne & Hchars & Hends). rewrite sanitize_basename_unfold.
  assert (Forall (fun c => isspace c = false) name) as Hnospace.
  { eapply Forall_impl; [exact Hchars|]. intros c Hc. by apply safe_char in Hc as (? & _). }
  assert (strip name = name) as ->.
  { apply strip_with_id. intros c Hc. rewrite Forall_forall in Hnospace. apply Hnospace.
    destruct Hc as [Hc|Hc]; [by apply head_Some_elem_of | by apply last_Some_elem_of]. }
  rewrite filter_all.
  2:{ eapply Forall_impl; [exact Hchars|]. intros c Hc. by apply safe_char in Hc as (_ & _ & ?). }
  unfold split. rewrite split_from_one_word by done. cbn [app join].
  unfold strip_chars. rewrite strip_with_id.
  - by destruct name.
  - intros c Hc. by apply bool_decide_eq_false, Hends.
Qed.

Lemma sanitize_basename_is_safe (name : str) : safe_name (sanitize_basename name).
Proof.
  rewrite sanitize_basename_unfold.
  set (trimmed := strip_chars _ _).
  destruct trimmed as [|d trimmed'] eqn:Htrimmed.
  { cbn [str_or]. split; [done|]. split.
    - apply (bool_decide_unpack _). by vm_compute.
    - intros c Hc. vm_compute in Hc.
      destruct Hc as [[= <-] | [= <-]]; apply (bool_decide_unpack _); by vm_compute. }
  cbn [str_or]. rewrite <- Htrimmed. split; [by rewrite Htrimmed|]. split.
  - apply Forall_forall. intros c Hc.
    apply strip_with_sub, elem_of_join in Hc as [Hc | (w & Hw & Hc)].
    + apply list_elem_of_singleton in Hc as ->.
      apply (bool_decide_unpack _). by vm_compute.
    + destruct (split_words _ _ _ Hw Hc) as [[Hallowed _]%list_elem_of_filter Hspace].
      by apply ALLOWED_CHARS_spec in Hallowed as [-> | ?].
  - intros c Hc. apply strip_with_ends in Hc. by apply bool_decide_eq_false in Hc.
Qed.

(** X10: a name of allowed characters other than the space, which neither
    starts nor ends with a dot or a hyphen, is returned as it is; every
    result is such a name, so sanitizing twice is sanitizing once. *)
Theorem sanitize_basename_idempotent (name : str) :
  (safe_name name -> sanitize_basename name = name) /\
  sanitize_basename (sanitize_basename name) = sanitize_basename name.
Proof.
  split; [apply sanitize_safe_name|].
  apply sanitize_safe_name, sanitize_basename_is_safe.
Qed.

Lemma sanitize_basename_idempotent_witness :
  safe_name (py "hw_3.final") /\ sanitize_basename (py "hw_3.final") = py "hw_3.final".
Proof.
  assert (safe_name (py "hw_3.final")) as H.
  { split; [done|]. split.
    - apply (bool_decide_unpack _). by vm_compute.
    - intros c Hc. vm_compute in Hc.
      destruct Hc as [[= <-] | [= <-]]; apply (bool_decide_unpack _); by vm_compute. }
  split; [exact H|]. apply (proj1 (sanitize_basename_idempotent (py "hw_3.final")) H).
Defined.

(** X11: the base name that [main] computes is the sanitized answer: the
    [strip()] of the answer and the default put in for an empty answer change
    nothing, since the sanitizer does both itself.  A blank answer gives the
    default name. *)
Theorem base_name_is_sanitized (typed : str) :
  base_name typed = sanitize_basename typed /\
  (Forall (fun c => isspace c = true) typed -> base_name typed = py "webwork-problems").
Proof.
  assert (strip typed = [] -> base_name typed = py "webwork-problems") as Hblank.
  { intros H. unfold base_name. by rewrite H. }
  split.
  - destruct (strip typed) as [|c rest] eqn:Hstrip.
    + rewrite Hblank by done. rewrite sanitize_basename_unfold, Hstrip. reflexivity.
    + unfold base_name. rewrite Hstrip. cbn [str_or]. rewrite <- Hstrip.
      rewrite !sanitize_basename_unfold. unfold strip. by rewrite strip_with_idemp.
  - intros H. by apply Hblank, strip_blank.
Qed.

Lemma base_name_is_sanitized_witness :
  Forall (fun c => isspace c = true) (py "  ") /\ base_name (py "  ") = py "webwork-problems".
Proof.
  assert (Forall (fun c => isspace c = true) (py "  ")) as H.
  { apply (bool_decide_unpack _). by vm_compute. }
  split; [exact H|]. apply (proj2 (base_name_is_sanitized (py "  ")) H).
Defined.

(** ** What a run does to the file system *)

Section RunEffects.

Context {platform : Platform}.

Lemma fs_events_app (xs ys : list event) :
  fs_events (xs ++ ys) = fs_events xs ++ fs_events ys.
Proof. apply List.filter_app. Qed.

Lemma fs_events_typed (pasted : list str) : fs_events (map Typed pasted) = [].
Proof. induction pasted as [|line pasted IH]; [done|]. exact IH. Qed.

Lemma fs_events_to_capture (typed : str) (pasted : list str) (folder : Path) :
  fs_events (events_to_capture typed pasted folder) = [MadeDir folder].
Proof.
  unfold events_to_capture. rewrite !fs_events_app, fs_events_typed. reflexivity.
Qed.

Lemma fs_events_of_save (base : str) (folder : Path) (k : nat) (blocks : list str) :
  fs_events (events_of_save base folder k blocks)
  = imap (fun i block =>
            Wrote (joinpath folder (base ++ py "-" ++ str_of_int (k + i) ++ py ".pg")) block)
      blocks.
Proof.
  revert k. induction blocks as [|block blocks IH]; intros k; [done|].
  cbn [events_of_save]. rewrite imap_cons. rewrite Nat.add_0_r.
  change (fs_events (?e1 :: ?e2 :: ?rest)) with (e1 :: fs_events rest).
  f_equal. rewrite IH. apply imap_ext. intros i x _. unfold compose.
  by replace (k + 1 + i) with (k + S i) by lia.
Qed.

Lemma extract_whitespace (s : str) :
  Forall (fun c => isspace c = true) s -> extract_pg_blocks_tokenized s = [].
Proof.
  intros Hs. rewrite extract_run. unfold finditer.
  by rewrite finditer_plain by (by apply whitespace_plain).
Qed.

(** X12: in every run that has allocated its folder, the changes to the file
    system are, in this order: the folder is made; each block of the
    extractor is written once, the block at position [i] (from 0) to the
    file [<base>-<i+1>.pg] of the folder; and the folder is archived once,
    when there are blocks and the run returns.  Nothing else is made,
    written or archived, and nothing at all after a blank paste. *)
Theorem main_file_system_events (fuel : nat) (typed : str) (pasted : list str) (w : world)
    (folder : Path) :
  let run := main fuel typed pasted w in
  let blocks := extract_pg_blocks_tokenized (pasted_text pasted) in
  unique_subfolder fuel (fs w) cwd (py "pg-folders/" ++ base_name typed) = Some folder ->
  exists archived,
    fs_events (trace run.2)
    = fs_events (trace w) ++ [MadeDir folder]
        ++ imap (fun i block => Wrote (block_file (base_name typed) folder i) block) blocks
        ++ archived /\
    ((archived = [] /\ (blocks = [] \/ run.1 = Unfinished)) \/
     (exists zip_path,
        archived = [Archived folder zip_path] /\ blocks <> [] /\ run.1 = Returned tt)).
Proof.
  intros run blocks Hfolder. subst run blocks. rewrite main_run, Hfolder. cbn zeta.
  pose proof (verdict_of_spec (pasted_text pasted)) as Hverdict.
  assert (forall bs : list str,
            fs_events (events_of_save (base_name typed) folder 1 bs)
            = imap (fun i block => Wrote (block_file (base_name typed) folder i) block) bs)
    as Hsave.
  { intros bs. rewrite fs_events_of_save. apply imap_ext. intros i x _.
    unfold block_file. by replace (1 + i) with (i + 1) by lia. }
  destruct (verdict_of (pasted_text pasted)) as [| |bs].
  - exists []. rewrite extract_whitespace by done.
    cbn [fst snd trace]. rewrite !fs_events_app, fs_events_to_capture.
    split; [by rewrite <- !(assoc_L app)|]. left. by split; [|left].
  - destruct Hverdict as [_ ->]. exists [].
    cbn [fst snd trace]. rewrite !fs_events_app, fs_events_to_capture.
    split; [by rewrite <- !(assoc_L app)|]. left. by split; [|left].
  - destruct Hverdict as (_ & -> & Hsome).
    destruct (unique_zip_path fuel _ _ _) as [zip_path|].
    + exists [Archived folder zip_path].
      cbn [fst snd trace]. rewrite !fs_events_app, fs_events_to_capture, Hsave.
      split.
      { rewrite <- !(assoc_L app). reflexivity. }
      right. exists zip_path. by repeat split.
    + exists []. cbn [fst snd trace]. rewrite !fs_events_app, fs_events_to_capture, Hsave.
      split; [by rewrite app_nil_r, <- !(assoc_L app)|]. left. by split; [|right].
Qed.

Lemma extract_documents_blocks (gap : str) (docs : list (str * str)) :
  only_these_markers gap docs = true ->
  extract_pg_blocks_tokenized (documents gap docs) = document_blocks docs.
Proof.
  intros Hok. rewrite extract_run. unfold finditer, loop_init.
  pose proof (run_documents [] gap docs [] Hok) as H.
  cbn [app length] in H. by rewrite H.
Qed.

Lemma events_of_save_wrote (base : str) (folder : Path) (k i : nat) (blocks : list str)
    (block : str) :
  blocks !! i = Some block ->
  Wrote (joinpath folder (base ++ py "-" ++ str_of_int (k + i) ++ py ".pg")) block
    ∈ events_of_save base folder k blocks.
Proof.
  revert k i. induction blocks as [|b blocks IH]; intros k i Hi; [done|].
  cbn [events_of_save]. destruct i as [|i].
  - injection Hi as ->. rewrite Nat.add_0_r. apply list_elem_of_here.
  - do 2 apply list_elem_of_further.
    replace (k + S i) with (k + 1 + i) by lia. by apply IH.
Qed.

(** X13: end to end, a paste of well-formed documents never ends with the
    error status: when the captured text is such a paste with at least one
    document, the run writes the block of the [i]-th document (from 0) to
    [<base>-<i+1>.pg] in the new folder, and if it ends, it ends with
    status zero. *)
Theorem main_saves_documents (fuel : nat) (typed : str) (pasted : list str) (w : world)
    (folder : Path) (gap : str) (docs : list (str * str)) :
  let run := main fuel typed pasted w in
  pasted_text pasted = documents gap docs ->
  only_these_markers gap docs = true ->
  docs <> [] ->
  unique_subfolder fuel (fs w) cwd (py "pg-folders/" ++ base_name typed) = Some folder ->
  (forall status, exit_status run.1 = Some status -> status = 0) /\
  (forall i block, document_blocks docs !! i = Some block ->
     Wrote (block_file (base_name typed) folder i) block ∈ trace run.2).
Proof.
  intros run Htext Hok Hdocs Hfolder. subst run. rewrite main_run, Hfolder. cbn zeta.
  pose proof (verdict_of_spec (pasted_text pasted)) as Hverdict.
  rewrite Htext, extract_documents_blocks in Hverdict by done. rewrite Htext.
  assert (document_blocks docs <> []) as Hsome by (by destruct docs as [|[? ?] ?]).
  destruct (verdict_of (documents gap docs)) as [| |bs].
  - apply extract_whitespace in Hverdict.
    by rewrite extract_documents_blocks in Hverdict.
  - by destruct Hverdict as [_ ?].
  - destruct Hverdict as (_ & <- & _).
    assert (forall i block,
              document_blocks docs !! i = Some block ->
              Wrote (block_file (base_name typed) folder i) block
                ∈ (trace w ++ events_to_capture typed pasted folder)
                    ++ events_of_save (base_name typed) folder 1 (document_blocks docs))
      as Hwrote.
    { intros i block Hi. apply elem_of_app. right.
      unfold block_file. replace (i + 1) with (1 + i) by lia.
      by apply events_of_save_wrote. }
    destruct (unique_zip_path fuel _ _ _) as [zip_path|]; cbn [fst snd trace exit_status].
    + split; [by intros ? [= <-]|]. intros i block Hi.
      apply elem_of_app. left. by apply Hwrote.
    + split; [done|]. intros i block Hi. by apply Hwrote.
Qed.

End RunEffects.

Lemma main_file_system_events_witness :
  let w := @World sample_platform [] [] in
  let pasted := [py "DOCUMENT();"; py "x"; py "ENDDOCUMENT(); % c"] in
  let run := @main sample_platform 1 (py "hw") pasted w in
  let blocks := extract_pg_blocks_tokenized (pasted_text pasted) in
  @unique_subfolder sample_platform 1 [] (py ".") (py "pg-folders/" ++ base_name (py "hw"))
  = Some (py "./pg-folders/hw") /\
  exists archived,
    fs_events (trace run.2)
    = fs_events (trace w) ++ [@MadeDir sample_platform (py "./pg-folders/hw")]
        ++ imap (fun i block =>
                   @Wrote sample_platform
                     (@block_file sample_platform (base_name (py "hw"))
                        (py "./pg-folders/hw") i) block)
             blocks
        ++ archived /\
    ((archived = [] /\ (blocks = [] \/ run.1 = Unfinished)) \/
     (exists zip_path,
        archived = [@Archived sample_platform (py "./pg-folders/hw") zip_path] /\
        blocks <> [] /\ run.1 = Returned tt)).
Proof.
  intros w pasted run blocks. split; [reflexivity|].
  apply (@main_file_system_events sample_platform 1 (py "hw") pasted w
           (py "./pg-folders/hw") eq_refl).
Defined.

Lemma main_saves_documents_witness :
  let w := @World sample_platform [] [] in
  let pasted := [py "DOCUMENT();"; py "x"; py "ENDDOCUMENT(); % c"] in
  let gap : str := [] in
  let docs := [([nl] ++ py "x" ++ [nl], py " % c" ++ [nl])] in
  pasted_text pasted = documents gap docs /\
  only_these_markers gap docs = true /\
  @Wrote sample_platform
    (@block_file sample_platform (base_name (py "hw")) (py "./pg-folders/hw") 0)
    (DOCUMENT ++ ([nl] ++ py "x" ++ [nl]) ++ ENDDOCUMENT ++ py " % c" ++ [nl])
    ∈ trace (@main sample_platform 1 (py "hw") pasted w).2.
Proof.
  intros w pasted gap docs. split; [reflexivity|]. split; [reflexivity|].
  apply (proj2 (@main_saves_documents sample_platform 1 (py "hw") pasted w
                  (py "./pg-folders/hw") gap docs eq_refl eq_refl ltac:(done) eq_refl) 0).
  reflexivity.
Defined.

(** ** A paste of blank lines *)

Lemma replace_crlf_elements (n : nat) (s : str) (c : N) :
  length s <= n ->
  (c ∈ replace s [cr; nl] [nl] -> c ∈ s) /\
  (c ∈ s -> c <> cr -> c ∈ replace s [cr; nl] [nl]).
Proof.
  revert s. induction n as [|n IH]; intros s Hn.
  { destruct s; [done | cbn [length] in Hn; lia]. }
  destruct s as [|d s]; [done|].
  destruct (startswith (d :: s) [cr; nl]) eqn:Hmatch.
  - apply startswith_spec in Hmatch as [rest [= -> ->]].
    rewrite replace_crlf_match. cbn [app].
    destruct (IH rest ltac:(cbn [length] in Hn; lia)) as [IH1 IH2]. split.
    + intros [->|H]%elem_of_cons.
      * apply list_elem_of_further, list_elem_of_here.
      * by do 2 apply list_elem_of_further; apply IH1.
    + intros [->|[->|H]%elem_of_cons]%elem_of_cons Hc; [done| |].
      * apply list_elem_of_here.
      * apply list_elem_of_further. by apply IH2.
  - rewrite replace_crlf_other by done.
    destruct (IH s ltac:(cbn [length] in Hn; lia)) as [IH1 IH2]. split.
    + intros [->|H]%elem_of_cons; [apply list_elem_of_here|].
      by apply list_elem_of_further, IH1.
    + intros [->|H]%elem_of_cons Hc; [apply list_elem_of_here|].
      by apply list_elem_of_further, IH2.
Qed.

Lemma replace_char_keeps (x : str) (a b c : N) :
  c ∈ x -> c <> a -> c ∈ replace x [a] [b].
Proof.
  induction x as [|d x IH]; [by intros ?%elem_of_nil|].
  rewrite replace_char_cons. intros [->|H]%elem_of_cons Hc.
  - apply N.eqb_neq in Hc as ->. apply list_elem_of_here.
  - destruct (N.eqb d a); cbn [app]; by apply list_elem_of_further, IH.
Qed.

Lemma elem_of_pasted_lines (pasted : list str) (c : N) :
  c ∈ concat (map (fun line => line ++ [nl]) pasted) <->
  (c = nl /\ pasted <> []) \/ exists line, line ∈ pasted /\ c ∈ line.
Proof.
  induction pasted as [|line pasted IH].
  - split; [by intros ?%elem_of_nil|]. intros [[_ ?]|(? & ?%elem_of_nil & _)]; done.
  - cbn [map concat]. rewrite !elem_of_app, list_elem_of_singleton, IH. split.
    + intros [[H| ->]|[[-> _]|(l & Hl & H)]].
      * right. exists line. split; [apply list_elem_of_here|done].
      * by left.
      * by left.
      * right. exists l. split; [by apply list_elem_of_further|done].
    + intros [[-> _]|(l & [->|Hl]%elem_of_cons & H)].
      * left. by right.
      * left. by left.
      * right. right. by exists l.
Qed.

(** X14: the captured text is blank, so that the run reports that there is
    no input, exactly when every pasted line holds whitespace only; this is
    the case of a paste without lines. *)
Theorem blank_paste (pasted : list str) :
  strip (pasted_text pasted) = [] <->
  Forall (fun line => Forall (fun c => isspace c = true) line) pasted.
Proof.
  rewrite strip_blank. unfold pasted_text, joined_text.
  set (text := concat _).
  pose proof (fun c => replace_crlf_elements (length text) text c (le_n _)) as Hcrlf.
  rewrite !Forall_forall. split.
  - intros Hblank line Hline. apply Forall_forall. intros c Hc.
    destruct (decide (c = cr)) as [->|Hcr]; [done|].
    apply Hblank, replace_char_keeps; [|done]. apply Hcrlf; [|done].
    apply elem_of_pasted_lines. right. by exists line.
  - intros Hlines c [->|[Hc _]]%elem_of_replace_char; [done|].
    apply Hcrlf, elem_of_pasted_lines in Hc as [[-> _]|(line & Hline & Hc)]; [done|].
    apply Hlines in Hline. rewrite Forall_forall in Hline. by apply Hline.
Qed.

(** ** Text before the first marker *)

(** X15: the text before the first marker of a paste does not count: the
    blocks are those of the paste from its first marker on. *)
Theorem text_before_first_marker_ignored (gap rest : str) (m : marker) :
  filler_ok gap m = true ->
  extract_pg_blocks_tokenized (gap ++ literal m ++ rest)
  = extract_pg_blocks_tokenized (literal m ++ rest).
Proof.
  intros Hgap. rewrite !extract_run. unfold finditer.
  rewrite (finditer_filler gap m rest 0) by done.
  assert (finditer_from 0 0 (literal m ++ rest)
          = (0, literal m) :: finditer_from 0 (length (literal m)) rest) as Htokens.
  { apply (finditer_filler [] m rest 0). by destruct m. }
  rewrite Htokens.
  pose proof (run_tokens_shift gap (literal m ++ rest) loop_init
                ((0, literal m) :: finditer_from 0 (length (literal m)) rest)) as H.
  change (shift_state (length gap) loop_init) with loop_init in H.
  cbn [map] in H. unfold shift_token at 1 in H. cbn [fst snd] in H.
  rewrite <- finditer_from_shift in H.
  rewrite Nat.add_0_r in H.
  replace (0 + length gap) with (length gap) by lia.
  replace (length gap + length (literal m)) with (length gap + length (literal m)) by done.
  by rewrite H.
Qed.

Lemma text_before_first_marker_ignored_witness :
  filler_ok (py "notes" ++ [nl]) Begin = true /\
  extract_pg_blocks_tokenized ((py "notes" ++ [nl]) ++ literal Begin ++ py "x" ++ ENDDOCUMENT)
  = extract_pg_blocks_tokenized (literal Begin ++ py "x" ++ ENDDOCUMENT).
Proof.
  split; [reflexivity|].
  apply (text_before_first_marker_ignored (py "notes" ++ [nl]) (py "x" ++ ENDDOCUMENT) Begin).
  reflexivity.
Defined.

Lemma blank_paste_witness :
  Forall (fun line => Forall (fun c => isspace c = true) line) [py "  "; []] /\
  strip (pasted_text [py "  "; []]) = [].
Proof.
  assert (Forall (fun line => Forall (fun c => isspace c = true) line) [py "  "; []]) as H.
  { apply (bool_decide_unpack _). by vm_compute. }
  split; [exact H|]. apply (proj2 (blank_paste [py "  "; []]) H).
Defined.

(** ** How the process ends *)

Section ExitStatus.

Context {platform : Platform}.

(** The path that an allocator returns does not depend on how long its loop
    was allowed to run. *)
Lemma subfolder_loop_fuel (fuel fuel' : nat) (fs : FS) (root : Path) (base : str) (k : nat)
    (p p' : Path) :
  subfolder_loop fuel fs root base k = Some p ->
  subfolder_loop fuel' fs root base k = Some p' ->
  p = p'.
Proof.
  revert fuel' k. induction fuel as [|fuel IH]; intros [|fuel'] k; try done.
  cbn [subfolder_loop]. destruct (path_exists fs _); cbn [negb].
  - apply IH.
  - congruence.
Qed.

Lemma unique_subfolder_fuel (fuel fuel' : nat) (fs : FS) (root : Path) (base : str)
    (p p' : Path) :
  unique_subfolder fuel fs root base = Some p ->
  unique_subfolder fuel' fs root base = Some p' ->
  p = p'.
Proof.
  unfold unique_subfolder. destruct (negb _); [congruence|]. apply subfolder_loop_fuel.
Qed.

(** Among finitely many paths the loops find an absent one. *)
Lemma unique_subfolder_returns (fuel : nat) (fs : FS) (root : Path) (base : str)
    (existing : list Path) :
  (forall p, path_exists fs p = true -> p ∈ existing) ->
  (forall j k,
     joinpath root (base ++ py "-" ++ str_of_int j)
     = joinpath root (base ++ py "-" ++ str_of_int k) -> j = k) ->
  S (length existing) <= fuel ->
  exists p, unique_subfolder fuel fs root base = Some p.
Proof.
  intros Hexisting Hinj Hfuel. unfold unique_subfolder. destruct (negb _); [by eexists|].
  destruct (subfolder_loop _ _ _ _ _) as [p|] eqn:Hloop; [by eexists|].
  destruct (numbered_path_absent fs existing _ Hexisting Hinj).
  intros j Hj. apply (subfolder_loop_none _ _ _ _ _ Hloop). lia.
Qed.

Lemma unique_zip_path_returns (fuel : nat) (fs : FS) (root : Path) (base : str)
    (existing : list Path) :
  (forall p, path_exists fs p = true -> p ∈ existing) ->
  (forall j k,
     joinpath root (base ++ py "-" ++ str_of_int j ++ py ".zip")
     = joinpath root (base ++ py "-" ++ str_of_int k ++ py ".zip") -> j = k) ->
  S (length existing) <= fuel ->
  exists p, unique_zip_path fuel fs root base = Some p.
Proof.
  intros Hexisting Hinj Hfuel. unfold unique_zip_path. destruct (negb _); [by eexists|].
  destruct (zip_path_loop _ _ _ _ _) as [p|] eqn:Hloop; [by eexists|].
  destruct (numbered_path_absent fs existing _ Hexisting Hinj).
  intros j Hj. apply (zip_path_loop_none _ _ _ _ _ Hloop). lia.
Qed.

Lemma events_of_save_printed (base : str) (folder : Path) (k i : nat) (blocks : list str)
    (block : str) :
  blocks !! i = Some block ->
  Printed (py "Saved: " ++ [dq]
             ++ path_str (joinpath folder (base ++ py "-" ++ str_of_int (k + i) ++ py ".pg"))
             ++ [dq])
    ∈ events_of_save base folder k blocks.
Proof.
  revert k i. induction blocks as [|b blocks IH]; intros k i Hi; [done|].
  cbn [events_of_save]. destruct i as [|i].
  - rewrite Nat.add_0_r. apply list_elem_of_further, list_elem_of_here.
  - do 2 apply list_elem_of_further.
    replace (k + S i) with (k + 1 + i) by lia. by apply IH.
Qed.

(** C6: the exit status of the process.  A run is given by the answer to the
    first prompt and by the lines pasted before Ctrl-C, the one way in which
    the capture returns a text: the script catches nothing else, so a run
    whose [input] raises otherwise (EOFError at the end of its stream)
    captures no text and is not a run of [main] here.

    On a file system that holds finitely many paths, and where different
    numbers give different paths, every run ends: once the two allocation
    loops may run long enough, the process has an exit status.  The status
    is non-zero exactly when the captured text is not blank and the
    extractor returns no block; it is then 1, and the last thing printed is
    the diagnostic.  On a blank captured text the last thing printed is the
    report that there is no input, and the status is zero.  Otherwise the
    status is zero, after the run has printed the path of every file that it
    saved in the folder it made, and then the path of the archive.

    The line [Created folder], printed before the capture, names
    [pg-folders/<base>] and not the path returned by the allocator; the
    folder made is [pg-folders/<base>] whenever that path was free. *)
Theorem main_exit_status (typed : str) (pasted : list str) (w : world) :
  let big_text := pasted_text pasted in
  let blank := Forall (fun c => isspace c = true) big_text in
  let blocks := extract_pg_blocks_tokenized big_text in
  let base := base_name typed in
  let pg_dir := py "pg-folders/" ++ base in
  let to_capture folder :=
    [ Prompted (py "Enter base filename (default: webwork-problems): ");
      Typed typed;
      MadeDir folder;
      Printed ([nl; nl] ++ py "Created folder: " ++ [dq] ++ pg_dir ++ [dq] ++ [nl]);
      Printed ([nl] ++ py "Paste ALL problems now. Press Ctrl-C when finished." ++ [nl]) ]
    ++ map Typed pasted
    ++ [ Interrupted;
         Printed ([nl; nl] ++ py "Ctrl-C Pressed. Processing zip-files..." ++ [nl]) ] in
  (forall fs : FS, exists existing : list Path,
     forall p, path_exists fs p = true -> p ∈ existing) ->
  (forall name j k,
     joinpath cwd (name ++ py "-" ++ str_of_int j)
     = joinpath cwd (name ++ py "-" ++ str_of_int k) -> j = k) ->
  (forall name j k,
     joinpath cwd (name ++ py "-" ++ str_of_int j ++ py ".zip")
     = joinpath cwd (name ++ py "-" ++ str_of_int k ++ py ".zip") -> j = k) ->
  exists fuel0 folder,
    forall fuel, fuel0 <= fuel ->
      let run := main fuel typed pasted w in
      unique_subfolder fuel (fs w) cwd pg_dir = Some folder /\
      (path_exists (fs w) (joinpath cwd pg_dir) = false -> folder = joinpath cwd pg_dir) /\
      exists status,
        exit_status run.1 = Some status /\
        (status <> 0 <-> ~ blank /\ blocks = []) /\
        (status <> 0 ->
         status = 1 /\
         last (trace run.2)
         = Some (Printed (py "No 'DOCUMENT(); ... ENDDOCUMENT();' blocks found. Aborting."))) /\
        (blank ->
         status = 0 /\
         last (trace run.2) = Some (Printed (py "No input detected. Nothing to do."))) /\
        (~ blank -> blocks <> [] ->
         status = 0 /\
         exists zip_path,
           trace run.2
           = trace w ++ to_capture folder
               ++ events_of_save base folder 1 blocks
               ++ [Archived folder zip_path;
                   Printed ([nl] ++ py "Created zip: " ++ [dq] ++ path_str zip_path ++ [dq]);
                   Printed (py "Done.")] /\
           (forall i block,
              blocks !! i = Some block ->
              Printed (py "Saved: " ++ [dq] ++ path_str (block_file base folder i) ++ [dq])
                ∈ events_of_save base folder 1 blocks)).
Proof.
  intros big_text blank blocks base pg_dir to_capture Hfinite Hfolders Hzips.
  destruct (Hfinite (fs w)) as [existing Hexisting].
  destruct (unique_subfolder_returns (S (length existing)) (fs w) cwd pg_dir existing
              Hexisting (Hfolders pg_dir) (le_n _)) as [folder Hfolder].
  destruct (Hfinite (fs_of_save base folder 1 blocks (mkdir_parents (fs w) folder)))
    as [existing' Hexisting'].
  exists (Nat.max (S (length existing)) (S (length existing'))), folder.
  intros fuel Hfuel run.
  destruct (unique_subfolder_returns fuel (fs w) cwd pg_dir existing
              Hexisting (Hfolders pg_dir) ltac:(lia)) as [folder' Hfolder'].
  assert (folder' = folder) as -> by (by eapply unique_subfolder_fuel).
  destruct (unique_zip_path_returns fuel _ cwd base existing'
              Hexisting' (Hzips base) ltac:(lia)) as [zip_path Hzip].
  split; [done|]. split.
  { intros Hfree. unfold unique_subfolder in Hfolder'. rewrite Hfree in Hfolder'.
    by injection Hfolder'. }
  assert (forall i block,
            blocks !! i = Some block ->
            Printed (py "Saved: " ++ [dq] ++ path_str (block_file base folder i) ++ [dq])
              ∈ events_of_save base folder 1 blocks) as Hsaved.
  { intros i block Hi. unfold block_file. replace (i + 1) with (1 + i) by lia.
    by eapply events_of_save_printed. }
  pose proof (verdict_of_spec big_text) as Hverdict. fold blank blocks in Hverdict.
  subst run. rewrite main_run. fold base pg_dir. rewrite Hfolder'. cbn zeta.
  change (events_to_capture typed pasted folder) with (to_capture folder).
  fold big_text. destruct (verdict_of big_text) as [| |bs].
  - exists 0. cbn [fst snd trace exit_status]. rewrite last_snoc.
    split; [done|]. split; [by split; [|intros [? _]]|]. by repeat split.
  - destruct Hverdict as [Hblank Hnone]. exists 1.
    cbn [fst snd trace exit_status]. rewrite last_snoc.
    split; [done|]. split; [by split|]. by repeat split.
  - destruct Hverdict as (Hblank & <- & Hsome). fold blocks. rewrite Hzip.
    exists 0. cbn [fst snd trace exit_status].
    split; [done|]. split; [by split; [|intros [_ ?]]|].
    split; [done|]. split; [done|]. intros _ _. split; [done|].
    exists zip_path. split; [|done]. by rewrite <- !(assoc_L app).
Qed.

End ExitStatus.

Lemma main_exit_status_witness :
  let w := @World sample_platform [py "./pg-folders/hw"; py "./hw.zip"] [] in
  let document := [py "DOCUMENT();"; py "x"; py "ENDDOCUMENT(); % c"] in
  exists fuel0, forall fuel, fuel0 <= fuel ->
    @unique_subfolder sample_platform fuel (fs w) (py ".") (py "pg-folders/hw")
    = Some (py "./pg-folders/hw-1") /\
    exit_status (@main sample_platform fuel (py "hw") [py "  "] w).1 = Some 0 /\
    exit_status (@main sample_platform fuel (py "hw") [py "hello"] w).1 = Some 1 /\
    exit_status (@main sample_platform fuel (py "hw") document w).1 = Some 0.
Proof.
  intros w document.
  assert (forall fs : @FS sample_platform, exists existing : list (@Path sample_platform),
            forall p, @path_exists sample_platform fs p = true -> p ∈ existing) as Hfinite.
  { intros fs. exists fs. intros p Hp. by apply bool_decide_eq_true in Hp. }
  assert (forall name j k,
            @joinpath sample_platform (@cwd sample_platform) (name ++ py "-" ++ str_of_int j)
            = @joinpath sample_platform (@cwd sample_platform) (name ++ py "-" ++ str_of_int k)
            -> j = k) as Hfolders.
  { intros name j k H. cbn in H.
    by apply app_inv_head, app_inv_head, app_inv_head, app_inv_head, str_of_int_inj in H. }
  assert (forall name j k,
            @joinpath sample_platform (@cwd sample_platform)
              (name ++ py "-" ++ str_of_int j ++ py ".zip")
            = @joinpath sample_platform (@cwd sample_platform)
                (name ++ py "-" ++ str_of_int k ++ py ".zip")
            -> j = k) as Hzips.
  { intros name j k H. cbn in H.
    by apply app_inv_head, app_inv_head, app_inv_head, app_inv_head, app_inv_tail,
      str_of_int_inj in H. }
  destruct (@main_exit_status sample_platform (py "hw") [py "  "] w Hfinite Hfolders Hzips)
    as (fuel1 & folder1 & Hblank).
  destruct (@main_exit_status sample_platform (py "hw") [py "hello"] w Hfinite Hfolders Hzips)
    as (fuel2 & folder2 & Hnone).
  destruct (@main_exit_status sample_platform (py "hw") document w Hfinite Hfolders Hzips)
    as (fuel3 & folder3 & Hsome).
  exists (S (Nat.max fuel1 (Nat.max fuel2 fuel3))). intros fuel Hfuel.
  destruct (Hblank fuel ltac:(lia)) as (_ & _ & status1 & -> & _ & _ & H1 & _).
  destruct (Hnone fuel ltac:(lia)) as (_ & _ & status2 & -> & H2 & H2' & _).
  destruct (Hsome fuel ltac:(lia)) as (_ & _ & status3 & -> & _ & _ & _ & H3).
  split; [|split; [|split]].
  - destruct fuel as [|fuel]; [lia|]. reflexivity.
  - f_equal. apply H1. apply (bool_decide_unpack _). by vm_compute.
  - f_equal. apply H2', H2. split; [|reflexivity].
    intros H. apply (bool_decide_pack _) in H. by vm_compute in H.
  - f_equal. apply H3; [|by vm_compute].
    intros H. apply (bool_decide_pack _) in H. by vm_compute in H.
Defined.
